(** * FullDuplexHfpLoopback: playback cursor, counters, recordings and peak query

    A shallow embedding of
    [apps/OboeTester/app/src/main/cpp/FullDuplexHfpLoopback.{h,cpp}]:
    the object's fields become a record, every member function a function
    on that record, and the two loops of the audio callback become
    structural recursions on the number of frames still to process.

    Samples are real amplitudes.  The class only ever copies samples
    (and hands them to the peak detectors), so they are modelled by
    rationals; [0] is the all-zero bit pattern that [memset] writes. *)

From Stdlib Require Import ZArith List Bool QArith Qabs Lia.
Import ListNotations.
Local Open Scope Z_scope.

(** ** Machine integers *)

(** Two's complement wrap-around of a [bits]-wide signed integer. *)
Definition wrap (bits : Z) (z : Z) : Z :=
  (z + 2 ^ (bits - 1)) mod 2 ^ bits - 2 ^ (bits - 1).

Definition wrap32 : Z -> Z := wrap 32.
Definition wrap64 : Z -> Z := wrap 64.

Definition INT32_MAX : Z := 2 ^ 31 - 1.
Definition INT64_MAX : Z := 2 ^ 63 - 1.

(** ** Samples, frames and raw sample pointers *)

Definition Sample : Type := Q.
Definition Frame : Type := list Sample.

(** A [float*] that is not null: the samples found at each offset. *)
Definition FloatPtr : Type := nat -> Sample.

(** [p + k] on a sample pointer. *)
Definition advancePtr (p : FloatPtr) (k : nat) : FloatPtr :=
  fun i => p (k + i)%nat.

(** The indices [0, 1, ..., n-1] of a [for (ch = 0; ch < n; ch++)] loop. *)
Definition channels (n : Z) : list Z :=
  map Z.of_nat (seq 0 (Z.to_nat n)).

(** One frame of [memset(.., 0, ..)] output. *)
Definition silence (channelCount : Z) : Frame :=
  repeat 0%Q (Z.to_nat channelCount).

(** ** Collaborators that are not part of the fragment *)

Module PeakDetector.

(** Modelled from the spec: analyzer/PeakDetector.h is missing.  A
    detector holds its current decaying peak estimate, a non-negative
    real number. *)
Record t : Type := { mLevel : Q }.

(** Modelled from the spec: the decay factor of the missing detector is
    an implementation choice there; 0.99 is taken, and any factor in
    [0,1] gives the same results below. *)
Definition kDecay : Q := 99 # 100.

(** Modelled from the spec: a detector of the missing class as
    [start()] allocates it, with level zero. *)
Definition init : t := {| mLevel := 0 |}.

(** Modelled from the spec: [process] of the missing class.  On each new
    sample the level is either replaced by [|sample|] if that is larger,
    or decayed multiplicatively toward 0 otherwise. *)
Definition process (d : t) (sample : Sample) : t :=
  if Qle_bool (Qabs sample) (mLevel d)
  then {| mLevel := mLevel d * kDecay |}
  else {| mLevel := Qabs sample |}.

(** Modelled from the spec: [getLevel] of the missing class, a plain
    read. *)
Definition getLevel (d : t) : Q := mLevel d.

End PeakDetector.

Module MultiChannelRecording.

(** Modelled from the spec: MultiChannelRecording.h is missing.  A
    bounded, append-only history of frames with a channel count and a
    capacity in frames that are fixed at creation. *)
Record t : Type := {
  mChannelCount : Z;
  mMaxFrames : Z;
  mFrames : list Frame
}.

(** Modelled from the spec: the constructor of the missing class, an
    empty history. *)
Definition create (channelCount maxFrames : Z) : t :=
  {| mChannelCount := channelCount; mMaxFrames := maxFrames; mFrames := [] |}.

(** Modelled from the spec: [write(buffer, 1)] of the missing class
    appends the one frame found at [buffer]; a full recording stops
    accumulating. *)
Definition write (r : t) (f : Frame) : t :=
  if Z.of_nat (length (mFrames r)) <? mMaxFrames r
  then {| mChannelCount := mChannelCount r;
          mMaxFrames := mMaxFrames r;
          mFrames := mFrames r ++ [f] |}
  else r.

End MultiChannelRecording.

(** The negotiated stream properties the class queries. *)
Record AudioStream : Type := {
  getSampleRate : Z;
  getChannelCount : Z
}.

Record Streams : Type := {
  getOutputStream : AudioStream;
  getInputStream : AudioStream
}.

Inductive DataCallbackResult : Type := Continue | Stop.

(** ** The object *)

Record State : Type := {
  mPlaybackBuffer : list Sample;
  mPlaybackPosition : Z;
  mPlaybackNumFrames : Z;
  mPlaybackChannelCount : Z;
  mPlaybackSampleRate : Z;
  mLoopPlayback : bool;
  mPlayedFrameCount : Z;
  mRecordedFrameCount : Z;
  mPlayedRecording : option MultiChannelRecording.t;
  mRecordedRecording : option MultiChannelRecording.t;
  mNumInputChannels : Z;
  mPeakDetectors : option (list PeakDetector.t)
}.

(** The member initialisers of the header. *)
Definition construct : State := {|
  mPlaybackBuffer := [];
  mPlaybackPosition := 0;
  mPlaybackNumFrames := 0;
  mPlaybackChannelCount := 1;
  mPlaybackSampleRate := 48000;
  mLoopPlayback := true;
  mPlayedFrameCount := 0;
  mRecordedFrameCount := 0;
  mPlayedRecording := None;
  mRecordedRecording := None;
  mNumInputChannels := 0;
  mPeakDetectors := None
|}.

Definition setLoopPlayback (loop : bool) (st : State) : State := {|
  mPlaybackBuffer := mPlaybackBuffer st;
  mPlaybackPosition := mPlaybackPosition st;
  mPlaybackNumFrames := mPlaybackNumFrames st;
  mPlaybackChannelCount := mPlaybackChannelCount st;
  mPlaybackSampleRate := mPlaybackSampleRate st;
  mLoopPlayback := loop;
  mPlayedFrameCount := mPlayedFrameCount st;
  mRecordedFrameCount := mRecordedFrameCount st;
  mPlayedRecording := mPlayedRecording st;
  mRecordedRecording := mRecordedRecording st;
  mNumInputChannels := mNumInputChannels st;
  mPeakDetectors := mPeakDetectors st
|}.

Definition getPlayedFrameCount (st : State) : Z := mPlayedFrameCount st.
Definition getRecordedFrameCount (st : State) : Z := mRecordedFrameCount st.

(** ** start *)

Definition SECONDS_TO_RECORD_HFP : Z := 300.

(** The effect of [start()] on the fields.  Its return value is the one
    of the base class' [start()], which is outside the fragment.  The
    array of detectors has [inputChannelCount] default-constructed
    elements (stream channel counts are never negative). *)
Definition start (io : Streams) (st : State) : State :=
  let outputSampleRate := getSampleRate (getOutputStream io) in
  let outputChannelCount := getChannelCount (getOutputStream io) in
  let inputChannelCount := getChannelCount (getInputStream io) in
  let inputSampleRate := getSampleRate (getInputStream io) in
  {|
    mPlaybackBuffer := mPlaybackBuffer st;
    mPlaybackPosition := 0;
    mPlaybackNumFrames := mPlaybackNumFrames st;
    mPlaybackChannelCount := mPlaybackChannelCount st;
    mPlaybackSampleRate := mPlaybackSampleRate st;
    mLoopPlayback := mLoopPlayback st;
    mPlayedFrameCount := 0;
    mRecordedFrameCount := 0;
    mPlayedRecording :=
      Some (MultiChannelRecording.create outputChannelCount
              (wrap32 (SECONDS_TO_RECORD_HFP * outputSampleRate)));
    mRecordedRecording :=
      Some (MultiChannelRecording.create inputChannelCount
              (wrap32 (SECONDS_TO_RECORD_HFP * inputSampleRate)));
    mNumInputChannels := inputChannelCount;
    mPeakDetectors :=
      Some (repeat PeakDetector.init (Z.to_nat inputChannelCount))
  |}.

(** ** getPeakLevel *)

Definition kNotStarted : Q := (-1)%Q.
Definition kOutOfRange : Q := (-2)%Q.

Definition getPeakLevel (index : Z) (st : State) : Q :=
  match mPeakDetectors st with
  | None => kNotStarted
  | Some detectors =>
      if (index <? 0) || (index >=? mNumInputChannels st)
      then kOutOfRange
      else PeakDetector.getLevel
             (nth (Z.to_nat index) detectors PeakDetector.init)
  end.

(** ** loadAudioData *)

(** [audioData] is [None] for [nullptr].  [resize] followed by [memcpy]
    leaves the first [totalSamples] samples found at [audioData] in the
    buffer. *)
Definition loadAudioData (audioData : option FloatPtr)
    (numFrames channelCount sampleRate : Z) (st : State) : Z * State :=
  match audioData with
  | None => (-1, st)
  | Some data =>
      if (numFrames <=? 0) || (channelCount <=? 0) then (-1, st)
      else
        let totalSamples := wrap32 (numFrames * channelCount) in
        (0, {|
          mPlaybackBuffer := map data (seq 0 (Z.to_nat totalSamples));
          mPlaybackPosition := 0;
          mPlaybackNumFrames := numFrames;
          mPlaybackChannelCount := channelCount;
          mPlaybackSampleRate := sampleRate;
          mLoopPlayback := mLoopPlayback st;
          mPlayedFrameCount := mPlayedFrameCount st;
          mRecordedFrameCount := mRecordedFrameCount st;
          mPlayedRecording := mPlayedRecording st;
          mRecordedRecording := mRecordedRecording st;
          mNumInputChannels := mNumInputChannels st;
          mPeakDetectors := mPeakDetectors st
        |})
  end.

(** ** Field updates used by the callback *)

Definition set_mPlaybackPosition (v : Z) (st : State) : State := {|
  mPlaybackBuffer := mPlaybackBuffer st;
  mPlaybackPosition := v;
  mPlaybackNumFrames := mPlaybackNumFrames st;
  mPlaybackChannelCount := mPlaybackChannelCount st;
  mPlaybackSampleRate := mPlaybackSampleRate st;
  mLoopPlayback := mLoopPlayback st;
  mPlayedFrameCount := mPlayedFrameCount st;
  mRecordedFrameCount := mRecordedFrameCount st;
  mPlayedRecording := mPlayedRecording st;
  mRecordedRecording := mRecordedRecording st;
  mNumInputChannels := mNumInputChannels st;
  mPeakDetectors := mPeakDetectors st
|}.

Definition set_mPlayedFrameCount (v : Z) (st : State) : State := {|
  mPlaybackBuffer := mPlaybackBuffer st;
  mPlaybackPosition := mPlaybackPosition st;
  mPlaybackNumFrames := mPlaybackNumFrames st;
  mPlaybackChannelCount := mPlaybackChannelCount st;
  mPlaybackSampleRate := mPlaybackSampleRate st;
  mLoopPlayback := mLoopPlayback st;
  mPlayedFrameCount := v;
  mRecordedFrameCount := mRecordedFrameCount st;
  mPlayedRecording := mPlayedRecording st;
  mRecordedRecording := mRecordedRecording st;
  mNumInputChannels := mNumInputChannels st;
  mPeakDetectors := mPeakDetectors st
|}.

Definition set_mRecordedFrameCount (v : Z) (st : State) : State := {|
  mPlaybackBuffer := mPlaybackBuffer st;
  mPlaybackPosition := mPlaybackPosition st;
  mPlaybackNumFrames := mPlaybackNumFrames st;
  mPlaybackChannelCount := mPlaybackChannelCount st;
  mPlaybackSampleRate := mPlaybackSampleRate st;
  mLoopPlayback := mLoopPlayback st;
  mPlayedFrameCount := mPlayedFrameCount st;
  mRecordedFrameCount := v;
  mPlayedRecording := mPlayedRecording st;
  mRecordedRecording := mRecordedRecording st;
  mNumInputChannels := mNumInputChannels st;
  mPeakDetectors := mPeakDetectors st
|}.

Definition set_mPlayedRecording (v : option MultiChannelRecording.t)
    (st : State) : State := {|
  mPlaybackBuffer := mPlaybackBuffer st;
  mPlaybackPosition := mPlaybackPosition st;
  mPlaybackNumFrames := mPlaybackNumFrames st;
  mPlaybackChannelCount := mPlaybackChannelCount st;
  mPlaybackSampleRate := mPlaybackSampleRate st;
  mLoopPlayback := mLoopPlayback st;
  mPlayedFrameCount := mPlayedFrameCount st;
  mRecordedFrameCount := mRecordedFrameCount st;
  mPlayedRecording := v;
  mRecordedRecording := mRecordedRecording st;
  mNumInputChannels := mNumInputChannels st;
  mPeakDetectors := mPeakDetectors st
|}.

Definition set_mRecordedRecording (v : option MultiChannelRecording.t)
    (st : State) : State := {|
  mPlaybackBuffer := mPlaybackBuffer st;
  mPlaybackPosition := mPlaybackPosition st;
  mPlaybackNumFrames := mPlaybackNumFrames st;
  mPlaybackChannelCount := mPlaybackChannelCount st;
  mPlaybackSampleRate := mPlaybackSampleRate st;
  mLoopPlayback := mLoopPlayback st;
  mPlayedFrameCount := mPlayedFrameCount st;
  mRecordedFrameCount := mRecordedFrameCount st;
  mPlayedRecording := mPlayedRecording st;
  mRecordedRecording := v;
  mNumInputChannels := mNumInputChannels st;
  mPeakDetectors := mPeakDetectors st
|}.

Definition set_mPeakDetectors (v : option (list PeakDetector.t))
    (st : State) : State := {|
  mPlaybackBuffer := mPlaybackBuffer st;
  mPlaybackPosition := mPlaybackPosition st;
  mPlaybackNumFrames := mPlaybackNumFrames st;
  mPlaybackChannelCount := mPlaybackChannelCount st;
  mPlaybackSampleRate := mPlaybackSampleRate st;
  mLoopPlayback := mLoopPlayback st;
  mPlayedFrameCount := mPlayedFrameCount st;
  mRecordedFrameCount := mRecordedFrameCount st;
  mPlayedRecording := mPlayedRecording st;
  mRecordedRecording := mRecordedRecording st;
  mNumInputChannels := mNumInputChannels st;
  mPeakDetectors := v
|}.

(** ** onBothStreamsReadyFloat: the output half *)

(** The output block is returned as the list of frames written to
    [outputData], in order; the interleaved block is their concatenation.
    Reading [mPlaybackBuffer] outside its bounds has no defined result in
    the source; [nth] yields [0] there, and [copyFrame_in_bounds] below
    shows that the indices stay inside the buffer. *)

(** Copy one frame, handling channel conversion. *)
Definition copyFrame (outputChannelCount : Z) (st : State) : Frame :=
  let srcOffset :=
    wrap32 (mPlaybackPosition st * mPlaybackChannelCount st) in
  map (fun ch =>
         let srcChannel := Z.rem ch (mPlaybackChannelCount st) in
         nth (Z.to_nat (wrap32 (srcOffset + srcChannel)))
             (mPlaybackBuffer st) 0%Q)
      (channels outputChannelCount).

(** The body of the [while] loop after the end-of-clip test: copy a
    frame, record it, then advance [outputFloat], [mPlaybackPosition],
    [framesWritten] and [mPlayedFrameCount].  The played recording was
    created by [start()] with the output stream's channel count, so the
    one frame it reads at [outputFloat] is the frame just copied. *)
Definition playFrame (outputChannelCount : Z) (st : State)
    : State * Frame :=
  let frame := copyFrame outputChannelCount st in
  let st1 :=
    set_mPlayedRecording
      (option_map (fun r => MultiChannelRecording.write r frame)
                  (mPlayedRecording st)) st in
  let st2 :=
    set_mPlaybackPosition (wrap32 (mPlaybackPosition st1 + 1)) st1 in
  let st3 :=
    set_mPlayedFrameCount (wrap64 (mPlayedFrameCount st2 + 1)) st2 in
  (st3, frame).

(** [while (framesWritten < numOutputFrames)], by recursion on
    [remaining = numOutputFrames - framesWritten]: every iteration
    either adds one to [framesWritten] or leaves the loop. *)
Fixpoint playLoop (outputChannelCount : Z) (remaining : nat) (st : State)
    : State * list Frame :=
  match remaining with
  | O => (st, [])
  | S remaining' =>
      let next st0 :=
        let (st1, frame) := playFrame outputChannelCount st0 in
        let (st', frames) := playLoop outputChannelCount remaining' st1 in
        (st', frame :: frames) in
      if mPlaybackPosition st >=? mPlaybackNumFrames st then
        if mLoopPlayback st then
          next (set_mPlaybackPosition 0 st)
        else
          (* Fill remaining with silence *)
          (st, repeat (silence outputChannelCount) remaining)
      else next st
  end.

Definition noAudioLoaded (st : State) : bool :=
  match mPlaybackBuffer st with [] => true | _ :: _ => false end
  || (mPlaybackNumFrames st =? 0).

Definition processOutput (outputChannelCount numOutputFrames : Z)
    (st : State) : State * list Frame :=
  if noAudioLoaded st then
    (* No audio loaded, output silence *)
    (st, repeat (silence outputChannelCount) (Z.to_nat numOutputFrames))
  else
    playLoop outputChannelCount (Z.to_nat numOutputFrames) st.

(** ** onBothStreamsReadyFloat: the input half *)

(** [for (ch = 0; ch < inputChannelCount && ch < mNumInputChannels; ch++)
    mPeakDetectors[ch].process(inputFloatConst[ch])], with [count] the
    number of channels that pass the test. *)
Fixpoint processDetectors (inputFloatConst : FloatPtr) (ch count : nat)
    (detectors : list PeakDetector.t) : list PeakDetector.t :=
  match count, detectors with
  | S count', d :: rest =>
      PeakDetector.process d (inputFloatConst ch)
      :: processDetectors inputFloatConst (S ch) count' rest
  | _, _ => detectors
  end.

(** The body of the [for] loop over the input frames.  The recorded
    recording was created by [start()] with the input stream's channel
    count, so the frame it reads at [inputFloatConst] has
    [inputChannelCount] samples. *)
Definition recordFrame (inputChannelCount : Z) (inputFloatConst : FloatPtr)
    (st : State) : State :=
  let frame := map inputFloatConst (seq 0 (Z.to_nat inputChannelCount)) in
  let st1 :=
    set_mRecordedRecording
      (option_map (fun r => MultiChannelRecording.write r frame)
                  (mRecordedRecording st)) st in
  let count := Z.to_nat (Z.min inputChannelCount (mNumInputChannels st1)) in
  let st2 :=
    set_mPeakDetectors
      (option_map (processDetectors inputFloatConst 0 count)
                  (mPeakDetectors st1)) st1 in
  set_mRecordedFrameCount (wrap64 (mRecordedFrameCount st2 + 1)) st2.

Fixpoint recordLoop (inputChannelCount : Z) (inputFloatConst : FloatPtr)
    (remaining : nat) (st : State) : State :=
  match remaining with
  | O => st
  | S remaining' =>
      recordLoop inputChannelCount
        (advancePtr inputFloatConst (Z.to_nat inputChannelCount))
        remaining' (recordFrame inputChannelCount inputFloatConst st)
  end.

(** ** onBothStreamsReadyFloat *)

Definition onBothStreamsReadyFloat (io : Streams) (inputData : FloatPtr)
    (numInputFrames : Z) (numOutputFrames : Z) (st : State)
    : State * list Frame * DataCallbackResult :=
  let outputChannelCount := getChannelCount (getOutputStream io) in
  let inputChannelCount := getChannelCount (getInputStream io) in
  let (st1, outputData) :=
    processOutput outputChannelCount numOutputFrames st in
  let st2 :=
    recordLoop inputChannelCount inputData (Z.to_nat numInputFrames) st1 in
  (st2, outputData, Continue).

(** One invocation of the callback, and a session of invocations. *)
Record Call : Type := {
  inputData : FloatPtr;
  numInputFrames : Z;
  numOutputFrames : Z
}.

Definition invoke (io : Streams) (c : Call) (st : State)
    : State * list Frame :=
  fst (onBothStreamsReadyFloat io (inputData c) (numInputFrames c)
         (numOutputFrames c) st).

(** The state after a sequence of invocations, with all the output
    frames they produced, in order. *)
Fixpoint run (io : Streams) (calls : list Call) (st : State)
    : State * list Frame :=
  match calls with
  | [] => (st, [])
  | c :: rest =>
      let (st1, out1) := invoke io c st in
      let (st2, out2) := run io rest st1 in
      (st2, out1 ++ out2)
  end.

Definition stereo48k : Streams := {|
  getOutputStream := {| getSampleRate := 48000; getChannelCount := 2 |};
  getInputStream := {| getSampleRate := 48000; getChannelCount := 2 |}
|}.
Definition half_clip : FloatPtr := fun _ => (1 # 2)%Q.

(** * Specification vocabulary *)

(** [n] increments of a 64-bit counter. *)
Definition bump64 (n : nat) (z : Z) : Z :=
  Nat.iter n (fun x => wrap64 (x + 1)) z.

(** What the constructor and [loadAudioData] establish and the callback
    keeps: the cursor is inside [0, frameCount], and the buffer holds
    exactly [frameCount * channelCount] samples. *)
Record clip_ok (st : State) : Prop := {
  clip_pos : 0 <= mPlaybackPosition st <= mPlaybackNumFrames st;
  clip_chan : 0 < mPlaybackChannelCount st;
  clip_len : Z.of_nat (length (mPlaybackBuffer st))
             = mPlaybackNumFrames st * mPlaybackChannelCount st;
  clip_fits : mPlaybackNumFrames st * mPlaybackChannelCount st <= INT32_MAX
}.

(** The fields of the clip other than the cursor. *)
Definition clipView (st : State) :=
  (mPlaybackBuffer st, mPlaybackNumFrames st, mPlaybackChannelCount st,
   mPlaybackSampleRate st, mLoopPlayback st).

(** Everything the output half reads or writes. *)
Definition playbackView (st : State) :=
  (clipView st, mPlaybackPosition st, mPlayedFrameCount st,
   mPlayedRecording st).

(** Everything the input half writes. *)
Definition captureView (st : State) :=
  (mRecordedFrameCount st, mRecordedRecording st, mNumInputChannels st,
   mPeakDetectors st).

(** The invariant as a test, for concrete states. *)
Definition clip_okb (st : State) : bool :=
  (0 <=? mPlaybackPosition st)
  && (mPlaybackPosition st <=? mPlaybackNumFrames st)
  && (0 <? mPlaybackChannelCount st)
  && (Z.of_nat (length (mPlaybackBuffer st))
      =? mPlaybackNumFrames st * mPlaybackChannelCount st)
  && (mPlaybackNumFrames st * mPlaybackChannelCount st <=? INT32_MAX).

(** Frame [f] of the loaded clip as it is heard on [outputChannelCount]
    channels: destination channel [c] is source channel
    [c mod channelCount]. *)
Definition clipFrame (st : State) (outputChannelCount f : Z) : Frame :=
  map (fun c =>
         nth (Z.to_nat (f * mPlaybackChannelCount st
                        + c mod mPlaybackChannelCount st))
             (mPlaybackBuffer st) 0%Q)
      (channels outputChannelCount).

(** The state after one pass through the loop body that copies a frame:
    a cursor at the end of the clip is first wrapped to 0. *)
Definition nextState (oc : Z) (st : State) : State :=
  fst (playFrame oc
         (set_mPlaybackPosition
            (mPlaybackPosition st mod mPlaybackNumFrames st) st)).

(** How many of the next [n] output frames are copied from the clip. *)
Definition framesFromClip (st : State) (n : nat) : nat :=
  if mLoopPlayback st then n
  else Nat.min n (Z.to_nat (mPlaybackNumFrames st - mPlaybackPosition st)).

(** The next [k] frames of the clip from the cursor on, wrapping. *)
Definition clipFrames (st : State) (oc : Z) (k : nat) : list Frame :=
  map (fun i =>
         clipFrame st oc
           ((mPlaybackPosition st + Z.of_nat i) mod mPlaybackNumFrames st))
      (seq 0 k).

(** The cursor after [k] more frames have been copied from the clip:
    it rests on the frame count after the last frame of a pass, and the
    wrap to 0 happens when the next frame is copied. *)
Definition cursorAfter (st : State) (k : nat) : Z :=
  match k with
  | O => mPlaybackPosition st
  | S k' => (mPlaybackPosition st + Z.of_nat k')
              mod mPlaybackNumFrames st + 1
  end.

(** The result of running the loop for [n] frames, [k] of which come
    from the clip: the output is those [k] clip frames followed by
    silence; the cursor, the counter and the recording have advanced by
    the [k] clip frames only. *)
Record play_post (oc : Z) (n k : nat) (st st' : State) (out : list Frame)
    : Prop := {
  post_out :
    out = clipFrames st oc k ++ repeat (silence oc) (n - k);
  post_pos : mPlaybackPosition st' = cursorAfter st k;
  post_played :
    mPlayedFrameCount st' = bump64 k (mPlayedFrameCount st);
  post_recording :
    mPlayedRecording st'
    = option_map
        (fun r => fold_left MultiChannelRecording.write
                    (clipFrames st oc k) r)
        (mPlayedRecording st);
  post_clip : clipView st' = clipView st;
  post_capture : captureView st' = captureView st
}.

(** How many of the output frames of a request for [numOutputFrames]
    frames are copied from the clip; the others are silence. *)
Definition clipFramesPlayed (st : State) (numOutputFrames : Z) : nat :=
  if noAudioLoaded st then 0%nat
  else framesFromClip st (Z.to_nat numOutputFrames).

(** The callback seen from outside: [k] clip frames then silence on the
    output; cursor, played counter and played recording advanced by the
    clip frames; the recorded counter advanced once per input frame. *)
Record invoke_post (io : Streams) (c : Call) (st st' : State)
    (out : list Frame) : Prop := {
  inv_out :
    out = clipFrames st (getChannelCount (getOutputStream io))
            (clipFramesPlayed st (numOutputFrames c))
          ++ repeat (silence (getChannelCount (getOutputStream io)))
               (Z.to_nat (numOutputFrames c)
                - clipFramesPlayed st (numOutputFrames c));
  inv_pos :
    mPlaybackPosition st'
    = cursorAfter st (clipFramesPlayed st (numOutputFrames c));
  inv_played :
    mPlayedFrameCount st'
    = bump64 (clipFramesPlayed st (numOutputFrames c))
        (mPlayedFrameCount st);
  inv_recording :
    mPlayedRecording st'
    = option_map
        (fun r => fold_left MultiChannelRecording.write
                    (clipFrames st (getChannelCount (getOutputStream io))
                       (clipFramesPlayed st (numOutputFrames c))) r)
        (mPlayedRecording st);
  inv_clip : clipView st' = clipView st;
  inv_recorded :
    mRecordedFrameCount st'
    = bump64 (Z.to_nat (numInputFrames c)) (mRecordedFrameCount st);
  inv_ok : clip_ok st'
}.

(** Output and input frames requested over a session. *)
Definition totalOut (calls : list Call) : nat :=
  fold_right (fun c acc => (Z.to_nat (numOutputFrames c) + acc)%nat) 0%nat
    calls.

Definition totalIn (calls : list Call) : nat :=
  fold_right (fun c acc => (Z.to_nat (numInputFrames c) + acc)%nat) 0%nat
    calls.

(** Output frames copied from the clip over a session. *)
Fixpoint clipFramesRun (io : Streams) (calls : list Call) (st : State)
    : nat :=
  match calls with
  | [] => 0%nat
  | c :: rest =>
      (clipFramesPlayed st (numOutputFrames c)
       + clipFramesRun io rest (fst (invoke io c st)))%nat
  end.

(** Concrete sessions used as examples below. *)
Definition started : State := start stereo48k construct.

Definition loaded10 : State :=
  snd (loadAudioData (Some half_clip) 10 1 48000 started).

Definition request (inFrames outFrames : Z) : Call :=
  {| inputData := half_clip;
     numInputFrames := inFrames;
     numOutputFrames := outFrames |}.

(** A ten-frame clip played to its end with looping off. *)
Definition ended10 : State :=
  fst (invoke stereo48k (request 0 12) (setLoopPlayback false loaded10)).

(** [reachable io started st]: [st] is a state of an object driven with
    the streams [io] by the control and audio actors; [started] tells
    whether [start()] has been called.  Stream channel counts are never
    negative. *)
Inductive reachable (io : Streams) : bool -> State -> Prop :=
| reach_construct : reachable io false construct
| reach_start b st :
    0 <= getChannelCount (getInputStream io) ->
    reachable io b st -> reachable io true (start io st)
| reach_loadAudioData b st audioData numFrames channelCount sampleRate :
    reachable io b st ->
    reachable io b
      (snd (loadAudioData audioData numFrames channelCount sampleRate st))
| reach_setLoopPlayback b st loop :
    reachable io b st -> reachable io b (setLoopPlayback loop st)
| reach_callback b st c :
    reachable io b st -> reachable io b (fst (invoke io c st)).

(** The detectors exist exactly after [start()], one per input channel,
    each with a non-negative level. *)
Definition detectors_ok (io : Streams) (isStarted : bool) (st : State)
    : Prop :=
  match mPeakDetectors st with
  | None => isStarted = false
  | Some detectors =>
      isStarted = true
      /\ mNumInputChannels st = getChannelCount (getInputStream io)
      /\ length detectors = Z.to_nat (mNumInputChannels st)
      /\ Forall (fun d => (0 <= PeakDetector.getLevel d)%Q) detectors
  end.

(** ** The remaining members, and whole lives of an object *)

Definition getPlayedRecording (st : State)
    : option MultiChannelRecording.t := mPlayedRecording st.

Definition getRecordedRecording (st : State)
    : option MultiChannelRecording.t := mRecordedRecording st.

(** The calls the control actor and the audio actor make on an object. *)
Inductive Op : Type :=
| OpStart
| OpLoadAudioData (audioData : option FloatPtr)
    (numFrames channelCount sampleRate : Z)
| OpSetLoopPlayback (loop : bool)
| OpCallback (c : Call).

Definition applyOp (io : Streams) (op : Op) (st : State) : State :=
  match op with
  | OpStart => start io st
  | OpLoadAudioData audioData numFrames channelCount sampleRate =>
      snd (loadAudioData audioData numFrames channelCount sampleRate st)
  | OpSetLoopPlayback loop => setLoopPlayback loop st
  | OpCallback c => fst (invoke io c st)
  end.

Definition applyOps (io : Streams) (ops : list Op) (st : State) : State :=
  fold_left (fun s op => applyOp io op s) ops st.

(** A call whose arithmetic stays inside [int32_t]: a load either is
    rejected or has a representable sample count. *)
Definition representable (op : Op) : bool :=
  match op with
  | OpLoadAudioData (Some _) numFrames channelCount _ =>
      (numFrames <=? 0) || (channelCount <=? 0)
      || (numFrames * channelCount <=? INT32_MAX)
  | _ => true
  end.

(** The state with the playback fields of [pb] and the capture fields of
    [cap]. *)
Definition mix (pb cap : State) : State := {|
  mPlaybackBuffer := mPlaybackBuffer pb;
  mPlaybackPosition := mPlaybackPosition pb;
  mPlaybackNumFrames := mPlaybackNumFrames pb;
  mPlaybackChannelCount := mPlaybackChannelCount pb;
  mPlaybackSampleRate := mPlaybackSampleRate pb;
  mLoopPlayback := mLoopPlayback pb;
  mPlayedFrameCount := mPlayedFrameCount pb;
  mRecordedFrameCount := mRecordedFrameCount cap;
  mPlayedRecording := mPlayedRecording pb;
  mRecordedRecording := mRecordedRecording cap;
  mNumInputChannels := mNumInputChannels cap;
  mPeakDetectors := mPeakDetectors cap
|}.

(** Frame [i] of an interleaved input block of [ic] channels. *)
Definition inputFrame (ic : Z) (inp : FloatPtr) (i : nat) : Frame :=
  map (fun ch => inp (i * Z.to_nat ic + ch)%nat) (seq 0 (Z.to_nat ic)).

(** The first [m] frames of an input block. *)
Definition inputFrames (ic : Z) (inp : FloatPtr) (m : nat) : list Frame :=
  map (inputFrame ic inp) (seq 0 m).

(** The samples of channel [ch] in the first [m] frames of an input
    block. *)
Definition channelSamples (ic : Z) (inp : FloatPtr) (ch m : nat)
    : list Sample :=
  map (fun i => inp (i * Z.to_nat ic + ch)%nat) (seq 0 m).

(** What [start()] allocates is there exactly after [start()]: the two
    recordings, made for the streams' channel counts and for
    [SECONDS_TO_RECORD_HFP] seconds, and one detector per input
    channel. *)
Definition alloc_ok (io : Streams) (isStarted : bool) (st : State) : Prop :=
  if isStarted then
    (exists r, getPlayedRecording st = Some r
       /\ MultiChannelRecording.mChannelCount r
          = getChannelCount (getOutputStream io)
       /\ MultiChannelRecording.mMaxFrames r
          = wrap32 (SECONDS_TO_RECORD_HFP
                    * getSampleRate (getOutputStream io)))
    /\ (exists r, getRecordedRecording st = Some r
         /\ MultiChannelRecording.mChannelCount r
            = getChannelCount (getInputStream io)
         /\ MultiChannelRecording.mMaxFrames r
            = wrap32 (SECONDS_TO_RECORD_HFP
                      * getSampleRate (getInputStream io)))
    /\ (exists detectors, mPeakDetectors st = Some detectors
         /\ length detectors = Z.to_nat (mNumInputChannels st))
    /\ mNumInputChannels st = getChannelCount (getInputStream io)
  else
    getPlayedRecording st = None
    /\ getRecordedRecording st = None
    /\ mPeakDetectors st = None
    /\ mNumInputChannels st = 0.

(** Channel count and capacity of a recording that may be absent. *)
Definition recShape (o : option MultiChannelRecording.t) : option (Z * Z) :=
  option_map (fun r => (MultiChannelRecording.mChannelCount r,
                        MultiChannelRecording.mMaxFrames r)) o.

(** What is allocated, and for what sizes. *)
Definition allocShape (st : State) :=
  (recShape (mPlayedRecording st), recShape (mRecordedRecording st),
   option_map (@length PeakDetector.t) (mPeakDetectors st),
   mNumInputChannels st).

(** * Properties *)

(** ** Wrap-around is the identity on representable values *)

Lemma wrap32_small (z : Z) : - 2 ^ 31 <= z <= INT32_MAX -> wrap32 z = z.
Proof.
  unfold wrap32, wrap, INT32_MAX. intros H.
  change (2 ^ (32 - 1)) with (2 ^ 31).
  rewrite Z.mod_small; lia.
Qed.

Lemma wrap64_small (z : Z) : - 2 ^ 63 <= z <= INT64_MAX -> wrap64 z = z.
Proof.
  unfold wrap64, wrap, INT64_MAX. intros H.
  change (2 ^ (64 - 1)) with (2 ^ 63).
  rewrite Z.mod_small; lia.
Qed.

Lemma bump64_S_inner (n : nat) (z : Z) :
  bump64 (S n) z = bump64 n (wrap64 (z + 1)).
Proof.
  unfold bump64. induction n as [|n IH]; [reflexivity|].
  simpl in *. now rewrite IH.
Qed.

Lemma bump64_exact (n : nat) (z : Z) :
  - 2 ^ 63 <= z -> z + Z.of_nat n <= INT64_MAX ->
  bump64 n z = z + Z.of_nat n.
Proof.
  revert z. induction n as [|n IH]; intros z Hlo Hhi.
  - simpl. lia.
  - rewrite bump64_S_inner, wrap64_small by lia.
    rewrite IH by lia. lia.
Qed.

(** ** The clip invariant *)

Lemma state_ext (a b : State) :
  playbackView a = playbackView b -> captureView a = captureView b -> a = b.
Proof.
  destruct a, b. unfold playbackView, clipView, captureView. simpl.
  intros H1 H2. injection H1 as -> -> -> -> -> -> -> ->.
  injection H2 as -> -> -> ->. reflexivity.
Qed.

Lemma clip_okb_true (st : State) : clip_okb st = true -> clip_ok st.
Proof.
  unfold clip_okb. rewrite !andb_true_iff.
  intros ((((H1 & H2) & H3) & H4) & H5).
  constructor; lia.
Qed.

(** Settles [clip_ok] on a closed state by running the test. *)
Ltac concrete_clip_ok := apply clip_okb_true; vm_compute; reflexivity.

Lemma clip_ok_construct : clip_ok construct.
Proof. constructor; simpl; unfold INT32_MAX; lia. Qed.

Lemma noAudioLoaded_iff (st : State) :
  clip_ok st -> (noAudioLoaded st = true <-> mPlaybackNumFrames st = 0).
Proof.
  intros [Hp Hc Hl Hf]. unfold noAudioLoaded.
  rewrite orb_true_iff, Z.eqb_eq.
  destruct (mPlaybackBuffer st) as [|x l] eqn:E; simpl in *.
  - split; [intros _; nia | auto].
  - split; [intros [H|H]; [discriminate | exact H] | auto].
Qed.

Lemma noAudioLoaded_false (st : State) :
  clip_ok st -> 0 < mPlaybackNumFrames st -> noAudioLoaded st = false.
Proof.
  intros Hok HF. destruct (noAudioLoaded st) eqn:E; [|reflexivity].
  apply noAudioLoaded_iff in E; [lia | exact Hok].
Qed.

(** ** Channel conversion *)

Lemma clipFrame_view (a b : State) oc f :
  clipView a = clipView b -> clipFrame a oc f = clipFrame b oc f.
Proof.
  unfold clipView, clipFrame. intros H.
  injection H as H1 H2 H3 H4 H5. now rewrite H1, H3.
Qed.

Lemma in_channels (n c : Z) : In c (channels n) <-> 0 <= c < n.
Proof.
  unfold channels. rewrite in_map_iff. split.
  - intros [i [<- Hi]]. apply in_seq in Hi. lia.
  - intros H. exists (Z.to_nat c). split; [lia|]. apply in_seq. lia.
Qed.

Lemma length_channels (n : Z) : length (channels n) = Z.to_nat n.
Proof. unfold channels. now rewrite length_map, length_seq. Qed.

Lemma nth_channels (n : Z) (i : nat) :
  (i < Z.to_nat n)%nat -> nth i (channels n) 0 = Z.of_nat i.
Proof.
  intros H. unfold channels.
  change 0 with (Z.of_nat 0). rewrite map_nth, seq_nth; [reflexivity | exact H].
Qed.

(** The source index of a sample stays inside the buffer. *)
Lemma src_index_range (st : State) (c : Z) :
  clip_ok st -> mPlaybackPosition st < mPlaybackNumFrames st -> 0 <= c ->
  0 <= mPlaybackPosition st * mPlaybackChannelCount st
       + c mod mPlaybackChannelCount st
    < Z.of_nat (length (mPlaybackBuffer st)).
Proof.
  intros [Hp Hc Hl Hf] Hlt Hc0.
  pose proof (Z.mod_pos_bound c _ Hc) as Hm.
  rewrite Hl. nia.
Qed.

Lemma copyFrame_clipFrame (st : State) (oc : Z) :
  clip_ok st -> mPlaybackPosition st < mPlaybackNumFrames st ->
  copyFrame oc st = clipFrame st oc (mPlaybackPosition st).
Proof.
  intros Hok Hlt. unfold copyFrame, clipFrame.
  apply map_ext_in. intros c Hin. apply in_channels in Hin.
  pose proof (src_index_range st c Hok Hlt (proj1 Hin)) as Hr.
  destruct Hok as [Hp Hc Hl Hf].
  pose proof (Z.mod_pos_bound c _ Hc) as Hm.
  rewrite Z.rem_mod_nonneg by lia.
  rewrite (wrap32_small (_ * _)) by (unfold INT32_MAX in *; nia).
  rewrite wrap32_small by (unfold INT32_MAX in *; nia).
  reflexivity.
Qed.

(** No read of the loop leaves the buffer. *)
Lemma copyFrame_in_bounds (st : State) (c : Z) :
  clip_ok st -> mPlaybackPosition st < mPlaybackNumFrames st -> 0 <= c ->
  let srcOffset :=
    wrap32 (mPlaybackPosition st * mPlaybackChannelCount st) in
  let srcChannel := Z.rem c (mPlaybackChannelCount st) in
  0 <= wrap32 (srcOffset + srcChannel)
    < Z.of_nat (length (mPlaybackBuffer st)).
Proof.
  intros Hok Hlt Hc0. simpl.
  pose proof (src_index_range st c Hok Hlt Hc0) as Hr.
  destruct Hok as [Hp Hc Hl Hf].
  pose proof (Z.mod_pos_bound c _ Hc) as Hm.
  rewrite Z.rem_mod_nonneg by lia.
  rewrite (wrap32_small (_ * _)) by (unfold INT32_MAX in *; nia).
  rewrite wrap32_small by (unfold INT32_MAX in *; nia).
  exact Hr.
Qed.

(** ** One iteration of the playback loop *)

Section PlaybackLoop.

(** The channel count of the output stream. *)
Variable oc : Z.

Lemma set_mPlaybackPosition_same (st : State) :
  set_mPlaybackPosition (mPlaybackPosition st) st = st.
Proof. now destruct st. Qed.

Lemma nextState_clipView st : clipView (nextState oc st) = clipView st.
Proof. reflexivity. Qed.

Lemma nextState_captureView st :
  captureView (nextState oc st) = captureView st.
Proof. reflexivity. Qed.

Lemma nextState_played st :
  mPlayedFrameCount (nextState oc st) = wrap64 (mPlayedFrameCount st + 1).
Proof. reflexivity. Qed.

Lemma nextState_pos st :
  clip_ok st -> 0 < mPlaybackNumFrames st ->
  mPlaybackPosition (nextState oc st)
  = mPlaybackPosition st mod mPlaybackNumFrames st + 1.
Proof.
  intros [Hp Hc Hl Hf] HF. unfold nextState, playFrame. simpl.
  pose proof (Z.mod_pos_bound (mPlaybackPosition st) _ HF).
  apply wrap32_small. unfold INT32_MAX in *. nia.
Qed.

Lemma clip_ok_rewound (st : State) :
  clip_ok st -> 0 < mPlaybackNumFrames st ->
  let st0 := set_mPlaybackPosition
               (mPlaybackPosition st mod mPlaybackNumFrames st) st in
  clip_ok st0 /\ mPlaybackPosition st0 < mPlaybackNumFrames st0.
Proof.
  intros [Hp Hc Hl Hf] HF. simpl.
  pose proof (Z.mod_pos_bound (mPlaybackPosition st) _ HF).
  split; [constructor; simpl; lia | lia].
Qed.

Lemma nextState_recording st :
  clip_ok st -> 0 < mPlaybackNumFrames st ->
  mPlayedRecording (nextState oc st)
  = option_map
      (fun r => MultiChannelRecording.write r
         (clipFrame st oc (mPlaybackPosition st mod mPlaybackNumFrames st)))
      (mPlayedRecording st).
Proof.
  intros Hok HF. destruct (clip_ok_rewound st Hok HF) as [Hok0 Hlt].
  unfold nextState, playFrame. simpl.
  rewrite (copyFrame_clipFrame _ oc Hok0 Hlt). reflexivity.
Qed.

Lemma clip_ok_nextState st :
  clip_ok st -> 0 < mPlaybackNumFrames st -> clip_ok (nextState oc st).
Proof.
  intros Hok HF. pose proof (nextState_pos st Hok HF) as Hpos.
  destruct Hok as [Hp Hc Hl Hf].
  pose proof (Z.mod_pos_bound (mPlaybackPosition st) _ HF).
  constructor; try assumption.
  rewrite Hpos. change (mPlaybackNumFrames (nextState oc st))
    with (mPlaybackNumFrames st). lia.
Qed.

Lemma playLoop_S_copy n st :
  clip_ok st -> 0 < mPlaybackNumFrames st ->
  mPlaybackPosition st < mPlaybackNumFrames st \/ mLoopPlayback st = true ->
  playLoop oc (S n) st
  = (fst (playLoop oc n (nextState oc st)),
     clipFrame st oc (mPlaybackPosition st mod mPlaybackNumFrames st)
     :: snd (playLoop oc n (nextState oc st))).
Proof.
  intros Hok HF Hcase.
  destruct (clip_ok_rewound st Hok HF) as [Hok0 Hlt].
  pose proof (copyFrame_clipFrame _ oc Hok0 Hlt) as Hcopy.
  unfold nextState. cbn [playLoop].
  destruct (mPlaybackPosition st >=? mPlaybackNumFrames st) eqn:E.
  - assert (mPlaybackPosition st = mPlaybackNumFrames st) as Heq
      by (destruct Hok; lia).
    assert (mLoopPlayback st = true) as -> by (destruct Hcase; [lia | easy]).
    rewrite Heq, Z_mod_same_full in *.
    destruct (playFrame oc (set_mPlaybackPosition 0 st))
      as [st1 frame] eqn:Epf.
    cbn [fst]. destruct (playLoop oc n st1) as [st' frames]. cbn [fst snd].
    unfold playFrame in Epf. injection Epf as _ <-.
    rewrite Hcopy. reflexivity.
  - assert (mPlaybackPosition st mod mPlaybackNumFrames st
            = mPlaybackPosition st) as Hmod
      by (apply Z.mod_small; destruct Hok; lia).
    rewrite Hmod, set_mPlaybackPosition_same in *.
    destruct (playFrame oc st) as [st1 frame] eqn:Epf.
    cbn [fst]. destruct (playLoop oc n st1) as [st' frames]. cbn [fst snd].
    unfold playFrame in Epf. injection Epf as _ <-.
    rewrite Hcopy. reflexivity.
Qed.

Lemma playLoop_S_end n st :
  mPlaybackNumFrames st <= mPlaybackPosition st ->
  mLoopPlayback st = false ->
  playLoop oc (S n) st = (st, repeat (silence oc) (S n)).
Proof.
  intros Hge Hloop. cbn [playLoop].
  destruct (mPlaybackPosition st >=? mPlaybackNumFrames st) eqn:E; [|lia].
  now rewrite Hloop.
Qed.

Lemma framesFromClip_S_copy n st :
  clip_ok st ->
  mPlaybackPosition st < mPlaybackNumFrames st \/ mLoopPlayback st = true ->
  framesFromClip st (S n) = S (framesFromClip (nextState oc st) n).
Proof.
  intros Hok Hcase. pose proof (clip_pos st Hok) as Hp.
  unfold framesFromClip.
  change (mLoopPlayback (nextState oc st)) with (mLoopPlayback st).
  change (mPlaybackNumFrames (nextState oc st)) with (mPlaybackNumFrames st).
  destruct (mLoopPlayback st) eqn:El; [reflexivity|].
  destruct Hcase as [Hlt|]; [|discriminate].
  rewrite (nextState_pos st Hok) by lia.
  rewrite Z.mod_small by lia. lia.
Qed.

Lemma clipFrames_S k st :
  clip_ok st -> 0 < mPlaybackNumFrames st ->
  clipFrames st oc (S k)
  = clipFrame st oc (mPlaybackPosition st mod mPlaybackNumFrames st)
    :: clipFrames (nextState oc st) oc k.
Proof.
  intros Hok HF. unfold clipFrames. cbn [seq map].
  rewrite Z.add_0_r. f_equal.
  rewrite <- seq_shift, map_map. apply map_ext. intros i.
  rewrite (clipFrame_view _ _ _ _ (nextState_clipView st)).
  rewrite (nextState_pos st Hok HF).
  change (mPlaybackNumFrames (nextState oc st)) with (mPlaybackNumFrames st).
  f_equal.
  rewrite <- Z.add_assoc, Zplus_mod_idemp_l. f_equal. lia.
Qed.

(** ** What the playback loop computes *)

Lemma option_map_id {A} (o : option A) : option_map (fun r => r) o = o.
Proof. now destruct o. Qed.

Lemma option_map_comp {A B C} (f : A -> B) (g : B -> C) (o : option A) :
  option_map g (option_map f o) = option_map (fun r => g (f r)) o.
Proof. now destruct o. Qed.

Lemma cursorAfter_add st st1 a b :
  mPlaybackNumFrames st1 = mPlaybackNumFrames st ->
  mPlaybackPosition st1 = cursorAfter st a ->
  cursorAfter st1 b = cursorAfter st (a + b).
Proof.
  intros HF Hpos. destruct b as [|b']; cbn [cursorAfter].
  - now rewrite Nat.add_0_r.
  - rewrite HF, Hpos. destruct a as [|a']; cbn [cursorAfter Nat.add].
    + reflexivity.
    + f_equal. rewrite <- !Z.add_assoc, Zplus_mod_idemp_l. f_equal. lia.
Qed.

Lemma playLoop_post (n : nat) : forall st,
  clip_ok st -> 0 < mPlaybackNumFrames st ->
  play_post oc n (framesFromClip st n) st
    (fst (playLoop oc n st)) (snd (playLoop oc n st)).
Proof.
  induction n as [|n IH]; intros st Hok HF.
  - assert (framesFromClip st 0 = 0%nat) as ->
      by (unfold framesFromClip; destruct (mLoopPlayback st); reflexivity).
    constructor; cbn; try reflexivity.
    now rewrite option_map_id.
  - pose proof (clip_pos st Hok) as Hp.
    destruct (mLoopPlayback st) eqn:El;
      [| destruct (Z_lt_le_dec (mPlaybackPosition st) (mPlaybackNumFrames st))
           as [Hlt|Hge]].
    1,2: assert (mPlaybackPosition st < mPlaybackNumFrames st
                 \/ mLoopPlayback st = true) as Hcase by (rewrite El; auto).
    1,2: rewrite (playLoop_S_copy n st Hok HF Hcase);
         rewrite (framesFromClip_S_copy n st Hok Hcase);
         specialize (IH (nextState oc st) (clip_ok_nextState st Hok HF) HF);
         destruct IH as [Iout Ipos Iplayed Irec Iclip Icap];
         cbn [fst snd];
         (constructor;
          [ rewrite (clipFrames_S _ st Hok HF), Iout; reflexivity
          | rewrite Ipos;
            apply (cursorAfter_add st (nextState oc st) 1);
            [ reflexivity
            | rewrite (nextState_pos st Hok HF); cbn [cursorAfter];
              now rewrite Z.add_0_r ]
          | rewrite Iplayed, bump64_S_inner, nextState_played; reflexivity
          | rewrite Irec, (nextState_recording st Hok HF),
              option_map_comp, (clipFrames_S _ st Hok HF); reflexivity
          | rewrite Iclip; reflexivity
          | rewrite Icap; reflexivity ]).
    rewrite (playLoop_S_end n st Hge El).
    assert (framesFromClip st (S n) = 0%nat) as ->
      by (unfold framesFromClip; rewrite El; lia).
    constructor; cbn [fst snd clipFrames seq map app fold_left];
      try reflexivity.
    now rewrite option_map_id.
Qed.

End PlaybackLoop.

(** ** What the capture loop computes *)

Lemma recordFrame_playbackView ic p st :
  playbackView (recordFrame ic p st) = playbackView st.
Proof. reflexivity. Qed.

Lemma recordLoop_playbackView ic n : forall p st,
  playbackView (recordLoop ic p n st) = playbackView st.
Proof.
  induction n as [|n IH]; intros p st; [reflexivity|].
  cbn [recordLoop]. now rewrite IH.
Qed.

Lemma recordLoop_recorded ic n : forall p st,
  mRecordedFrameCount (recordLoop ic p n st)
  = bump64 n (mRecordedFrameCount st).
Proof.
  induction n as [|n IH]; intros p st; [reflexivity|].
  cbn [recordLoop]. rewrite IH, bump64_S_inner. reflexivity.
Qed.

(** Projections of the views. *)
Lemma playbackView_fields (a b : State) :
  playbackView a = playbackView b ->
  clipView a = clipView b
  /\ mPlaybackPosition a = mPlaybackPosition b
  /\ mPlayedFrameCount a = mPlayedFrameCount b
  /\ mPlayedRecording a = mPlayedRecording b.
Proof.
  unfold playbackView, clipView. intros H. inversion H.
  repeat split; congruence.
Qed.

Lemma clipView_fields (a b : State) :
  clipView a = clipView b ->
  mPlaybackBuffer a = mPlaybackBuffer b
  /\ mPlaybackNumFrames a = mPlaybackNumFrames b
  /\ mPlaybackChannelCount a = mPlaybackChannelCount b
  /\ mLoopPlayback a = mLoopPlayback b.
Proof.
  unfold clipView. intros H. injection H as H1 H2 H3 _ H5. auto.
Qed.

Lemma clip_ok_view (a b : State) :
  clipView a = clipView b -> mPlaybackPosition a = mPlaybackPosition b ->
  clip_ok a -> clip_ok b.
Proof.
  intros Hv Hpos [Hp Hc Hl Hf].
  destruct (clipView_fields a b Hv) as (Hb & HF & HC & _).
  rewrite Hpos, HF in Hp. rewrite HC in Hc. rewrite Hb, HF, HC in Hl.
  rewrite HF, HC in Hf. constructor; assumption.
Qed.

(** ** One invocation of the callback *)

Lemma processOutput_post oc N st :
  clip_ok st ->
  play_post oc (Z.to_nat N) (clipFramesPlayed st N) st
    (fst (processOutput oc N st)) (snd (processOutput oc N st)).
Proof.
  intros Hok. unfold processOutput, clipFramesPlayed.
  destruct (noAudioLoaded st) eqn:E.
  - constructor; cbn [fst snd clipFrames seq map app fold_left];
      try reflexivity.
    + now rewrite Nat.sub_0_r.
    + now rewrite option_map_id.
  - apply playLoop_post; [exact Hok|].
    pose proof (clip_pos st Hok).
    destruct (Z.eq_dec (mPlaybackNumFrames st) 0) as [H0|H0]; [|lia].
    apply (noAudioLoaded_iff st Hok) in H0. congruence.
Qed.

Lemma onBothStreamsReadyFloat_eq io inp M N st :
  onBothStreamsReadyFloat io inp M N st
  = (recordLoop (getChannelCount (getInputStream io)) inp (Z.to_nat M)
       (fst (processOutput (getChannelCount (getOutputStream io)) N st)),
     snd (processOutput (getChannelCount (getOutputStream io)) N st),
     Continue).
Proof.
  unfold onBothStreamsReadyFloat.
  now destruct (processOutput _ N st).
Qed.

Lemma play_post_pos_range oc n k st st' out :
  clip_ok st -> k = 0%nat \/ 0 < mPlaybackNumFrames st ->
  play_post oc n k st st' out ->
  0 <= mPlaybackPosition st' <= mPlaybackNumFrames st.
Proof.
  intros Hok Hk [_ Hpos _ _ _ _]. pose proof (clip_pos st Hok) as Hp.
  rewrite Hpos. destruct k as [|k']; cbn [cursorAfter]; [exact Hp|].
  destruct Hk as [Hk|HF]; [discriminate|].
  pose proof (Z.mod_pos_bound (mPlaybackPosition st + Z.of_nat k') _ HF).
  lia.
Qed.

Lemma clipFramesPlayed_cases st N :
  clip_ok st ->
  clipFramesPlayed st N = 0%nat \/ 0 < mPlaybackNumFrames st.
Proof.
  intros Hok. unfold clipFramesPlayed.
  destruct (noAudioLoaded st) eqn:E; [now left | right].
  pose proof (clip_pos st Hok).
  destruct (Z.eq_dec (mPlaybackNumFrames st) 0) as [H0|H0]; [|lia].
  apply (noAudioLoaded_iff st Hok) in H0. congruence.
Qed.

Lemma invoke_spec io c st :
  clip_ok st ->
  invoke_post io c st (fst (invoke io c st)) (snd (invoke io c st)).
Proof.
  intros Hok. unfold invoke. rewrite onBothStreamsReadyFloat_eq.
  cbn [fst snd].
  pose proof (processOutput_post (getChannelCount (getOutputStream io))
                (numOutputFrames c) st Hok) as Hpost.
  pose proof (play_post_pos_range _ _ _ _ _ _ Hok
                (clipFramesPlayed_cases st (numOutputFrames c) Hok) Hpost)
    as Hrange.
  destruct Hpost as [Hout Hpos Hplayed Hrec Hclip Hcap].
  set (st1 := fst (processOutput _ (numOutputFrames c) st)) in *.
  pose proof (recordLoop_playbackView (getChannelCount (getInputStream io))
                (Z.to_nat (numInputFrames c)) (inputData c) st1) as Hview.
  destruct (playbackView_fields _ _ Hview) as (Vclip & Vpos & Vplayed & Vrec).
  destruct (clipView_fields _ _ Hclip) as (Hb & HF & HC & _).
  destruct (clipView_fields _ _ Vclip) as (Vb & VF & VC & _).
  constructor.
  - exact Hout.
  - now rewrite Vpos.
  - now rewrite Vplayed.
  - now rewrite Vrec.
  - now rewrite Vclip.
  - rewrite recordLoop_recorded. f_equal.
    unfold captureView in Hcap. now injection Hcap.
  - destruct Hok as [Hp Hc Hl Hf].
    constructor; rewrite ?Vpos, ?Vb, ?VF, ?VC, ?Hb, ?HF, ?HC;
      (assumption || lia).
Qed.

(** ** Reading the output *)

Lemma length_clipFrames st oc k : length (clipFrames st oc k) = k.
Proof. unfold clipFrames. now rewrite length_map, length_seq. Qed.

Lemma nth_clipFrames st oc k j rest :
  (j < k)%nat ->
  nth j (clipFrames st oc k ++ rest) []
  = clipFrame st oc
      ((mPlaybackPosition st + Z.of_nat j) mod mPlaybackNumFrames st).
Proof.
  intros Hj. rewrite app_nth1 by (now rewrite length_clipFrames).
  unfold clipFrames.
  rewrite (nth_indep _ []
             (clipFrame st oc ((mPlaybackPosition st + Z.of_nat 0)
                               mod mPlaybackNumFrames st)))
    by (now rewrite length_map, length_seq).
  rewrite (map_nth (fun i => clipFrame st oc
             ((mPlaybackPosition st + Z.of_nat i) mod mPlaybackNumFrames st))).
  now rewrite seq_nth.
Qed.

Lemma nth_clipFrame st oc f ch :
  0 <= ch < oc ->
  nth (Z.to_nat ch) (clipFrame st oc f) 0%Q
  = nth (Z.to_nat (f * mPlaybackChannelCount st
                   + ch mod mPlaybackChannelCount st))
        (mPlaybackBuffer st) 0%Q.
Proof.
  intros Hch. unfold clipFrame.
  set (g := fun c => nth (Z.to_nat (f * mPlaybackChannelCount st
                                    + c mod mPlaybackChannelCount st))
                         (mPlaybackBuffer st) 0%Q).
  rewrite (nth_indep _ 0%Q (g 0))
    by (rewrite length_map, length_channels; lia).
  rewrite (map_nth g), nth_channels by lia.
  unfold g. now rewrite Z2Nat.id by lia.
Qed.

Lemma clipFramesPlayed_le st N : (clipFramesPlayed st N <= Z.to_nat N)%nat.
Proof.
  unfold clipFramesPlayed, framesFromClip.
  destruct (noAudioLoaded st); [lia|].
  destruct (mLoopPlayback st); lia.
Qed.

Lemma clipFramesPlayed_loop st N :
  clip_ok st -> 0 < mPlaybackNumFrames st -> mLoopPlayback st = true ->
  clipFramesPlayed st N = Z.to_nat N.
Proof.
  intros Hok HF Hloop. unfold clipFramesPlayed, framesFromClip.
  now rewrite (noAudioLoaded_false st Hok HF), Hloop.
Qed.

(** ** loadAudioData establishes the clip invariant *)

Lemma loadAudioData_valid data numFrames channelCount sampleRate st :
  0 < numFrames -> 0 < channelCount ->
  numFrames * channelCount <= INT32_MAX ->
  loadAudioData (Some data) numFrames channelCount sampleRate st
  = (0, {|
      mPlaybackBuffer :=
        map data (seq 0 (Z.to_nat (numFrames * channelCount)));
      mPlaybackPosition := 0;
      mPlaybackNumFrames := numFrames;
      mPlaybackChannelCount := channelCount;
      mPlaybackSampleRate := sampleRate;
      mLoopPlayback := mLoopPlayback st;
      mPlayedFrameCount := mPlayedFrameCount st;
      mRecordedFrameCount := mRecordedFrameCount st;
      mPlayedRecording := mPlayedRecording st;
      mRecordedRecording := mRecordedRecording st;
      mNumInputChannels := mNumInputChannels st;
      mPeakDetectors := mPeakDetectors st
    |}).
Proof.
  intros HF HC Hfit. unfold loadAudioData.
  destruct (numFrames <=? 0) eqn:E1; [lia|].
  destruct (channelCount <=? 0) eqn:E2; [lia|].
  cbn [orb]. rewrite wrap32_small by (unfold INT32_MAX in *; nia).
  reflexivity.
Qed.

Lemma clip_ok_loadAudioData data numFrames channelCount sampleRate st :
  0 < numFrames -> 0 < channelCount ->
  numFrames * channelCount <= INT32_MAX ->
  clip_ok
    (snd (loadAudioData (Some data) numFrames channelCount sampleRate st)).
Proof.
  intros HF HC Hfit.
  rewrite (loadAudioData_valid _ _ _ _ _ HF HC Hfit).
  constructor; cbn [snd mPlaybackPosition mPlaybackNumFrames
                    mPlaybackChannelCount mPlaybackBuffer];
    try lia.
  rewrite length_map, length_seq. nia.
Qed.

(** A frame of a freshly loaded clip, in terms of the caller's samples. *)
Lemma clipFrame_loaded data numFrames channelCount sampleRate st oc f :
  0 < numFrames -> 0 < channelCount ->
  numFrames * channelCount <= INT32_MAX -> 0 <= f < numFrames ->
  clipFrame
    (snd (loadAudioData (Some data) numFrames channelCount sampleRate st))
    oc f
  = map (fun c => data (Z.to_nat (f * channelCount + c mod channelCount)))
        (channels oc).
Proof.
  intros HF HC Hfit Hf.
  rewrite (loadAudioData_valid _ _ _ _ _ HF HC Hfit).
  unfold clipFrame.
  cbn [snd mPlaybackChannelCount mPlaybackBuffer].
  apply map_ext_in. intros c Hc.
  pose proof (Z.mod_pos_bound c _ HC) as Hm.
  rewrite (nth_indep _ 0%Q (data 0%nat))
    by (rewrite length_map, length_seq; nia).
  rewrite map_nth, seq_nth by nia. reflexivity.
Qed.

(** ** Sessions *)

Section Sessions.

Variable io : Streams.

Lemma run_cons c rest st :
  run io (c :: rest) st
  = (fst (run io rest (fst (invoke io c st))),
     snd (invoke io c st) ++ snd (run io rest (fst (invoke io c st)))).
Proof.
  cbn [run]. destruct (invoke io c st) as [st1 out1].
  cbn [fst snd]. now destruct (run io rest st1).
Qed.

Lemma bump64_add (a b : nat) (z : Z) :
  bump64 (a + b) z = bump64 b (bump64 a z).
Proof.
  revert z. induction a as [|a IH]; intros z; [reflexivity|].
  cbn [Nat.add]. now rewrite !bump64_S_inner, IH.
Qed.

Lemma run_counters calls : forall st,
  clip_ok st ->
  clip_ok (fst (run io calls st))
  /\ clipView (fst (run io calls st)) = clipView st
  /\ mPlayedFrameCount (fst (run io calls st))
     = bump64 (clipFramesRun io calls st) (mPlayedFrameCount st)
  /\ mRecordedFrameCount (fst (run io calls st))
     = bump64 (totalIn calls) (mRecordedFrameCount st)
  /\ length (snd (run io calls st)) = totalOut calls
  /\ (clipFramesRun io calls st <= totalOut calls)%nat.
Proof.
  induction calls as [|c rest IH]; intros st Hok.
  - cbn. split; [exact Hok|]. repeat split; (reflexivity || lia).
  - rewrite run_cons. cbn [fst snd clipFramesRun totalIn totalOut fold_right].
    destruct (invoke_spec io c st Hok)
      as [Hout _ Hplayed _ Hclip Hrecorded Hok1].
    destruct (IH _ Hok1) as (Iok & Iclip & Iplayed & Irec & Ilen & Ile).
    pose proof (clipFramesPlayed_le st (numOutputFrames c)) as Hle.
    split; [exact Iok|]. repeat split.
    + now rewrite Iclip.
    + now rewrite Iplayed, Hplayed, bump64_add.
    + now rewrite Irec, Hrecorded, bump64_add.
    + rewrite length_app, Ilen. f_equal.
      rewrite Hout, length_app, length_clipFrames, repeat_length. lia.
    + fold (totalOut rest). lia.
Qed.

Lemma run_loop_counts calls : forall st,
  clip_ok st -> 0 < mPlaybackNumFrames st -> mLoopPlayback st = true ->
  clipFramesRun io calls st = totalOut calls.
Proof.
  induction calls as [|c rest IH]; intros st Hok HF Hloop; [reflexivity|].
  cbn [clipFramesRun totalOut fold_right]. fold (totalOut rest).
  destruct (invoke_spec io c st Hok) as [_ _ _ _ Hclip _ Hok1].
  destruct (clipView_fields _ _ Hclip) as (_ & HF1 & _ & Hl1).
  rewrite (clipFramesPlayed_loop st _ Hok HF Hloop).
  rewrite IH; [reflexivity | exact Hok1 | now rewrite HF1 | now rewrite Hl1].
Qed.

Lemma seq_add_map (a n : nat) : seq a n = map (fun i => (a + i)%nat) (seq 0 n).
Proof.
  revert a. induction n as [|n IH]; intros a; [reflexivity|].
  cbn [seq map]. rewrite Nat.add_0_r. f_equal.
  rewrite (IH (S a)), <- seq_shift, map_map.
  apply map_ext. intros i. lia.
Qed.

Lemma clipFrames_app oc st st1 a b :
  clipView st1 = clipView st ->
  mPlaybackPosition st1 = cursorAfter st a ->
  clipFrames st oc (a + b) = clipFrames st oc a ++ clipFrames st1 oc b.
Proof.
  intros Hclip Hpos. unfold clipFrames.
  rewrite seq_app, map_app. f_equal.
  rewrite (seq_add_map (0 + a)), map_map. apply map_ext. intros i.
  rewrite (clipFrame_view _ _ _ _ Hclip).
  destruct (clipView_fields _ _ Hclip) as (_ & -> & _ & _).
  rewrite Hpos. f_equal. destruct a as [|a']; cbn [cursorAfter].
  - f_equal; lia.
  - rewrite <- !Z.add_assoc, Zplus_mod_idemp_l. f_equal; lia.
Qed.

Lemma run_loop calls : forall st,
  clip_ok st -> 0 < mPlaybackNumFrames st -> mLoopPlayback st = true ->
  snd (run io calls st)
  = clipFrames st (getChannelCount (getOutputStream io)) (totalOut calls)
  /\ mPlaybackPosition (fst (run io calls st))
     = cursorAfter st (totalOut calls).
Proof.
  induction calls as [|c rest IH]; intros st Hok HF Hloop.
  - cbn. auto.
  - rewrite run_cons. cbn [fst snd totalOut fold_right]. fold (totalOut rest).
    destruct (invoke_spec io c st Hok) as [Hout Hpos _ _ Hclip _ Hok1].
    rewrite (clipFramesPlayed_loop st _ Hok HF Hloop) in Hout, Hpos.
    rewrite Nat.sub_diag in Hout. cbn [repeat] in Hout.
    rewrite app_nil_r in Hout.
    destruct (clipView_fields _ _ Hclip) as (_ & HF1 & _ & Hl1).
    destruct (IH (fst (invoke io c st)) Hok1) as [Iout Ipos];
      [now rewrite HF1 | now rewrite Hl1 |].
    split.
    + rewrite Hout, Iout. symmetry. apply clipFrames_app; assumption.
    + rewrite Ipos. apply cursorAfter_add; assumption.
Qed.

Lemma clipFramesPlayed_ended st N :
  mLoopPlayback st = false ->
  mPlaybackPosition st = mPlaybackNumFrames st ->
  clipFramesPlayed st N = 0%nat.
Proof.
  intros Hloop Hpos. unfold clipFramesPlayed, framesFromClip.
  destruct (noAudioLoaded st); [reflexivity|].
  rewrite Hloop, Hpos. lia.
Qed.

Lemma run_ended calls : forall st,
  clip_ok st -> mLoopPlayback st = false ->
  mPlaybackPosition st = mPlaybackNumFrames st ->
  snd (run io calls st)
  = repeat (silence (getChannelCount (getOutputStream io))) (totalOut calls)
  /\ mPlaybackPosition (fst (run io calls st)) = mPlaybackNumFrames st
  /\ mPlayedFrameCount (fst (run io calls st)) = mPlayedFrameCount st.
Proof.
  induction calls as [|c rest IH]; intros st Hok Hloop Hend.
  - cbn. auto.
  - rewrite run_cons. cbn [fst snd totalOut fold_right]. fold (totalOut rest).
    destruct (invoke_spec io c st Hok) as [Hout Hpos Hplayed _ Hclip _ Hok1].
    rewrite (clipFramesPlayed_ended st _ Hloop Hend) in Hout, Hpos, Hplayed.
    cbn in Hout, Hplayed, Hpos. rewrite Nat.sub_0_r in Hout.
    destruct (clipView_fields _ _ Hclip) as (_ & HF1 & _ & Hl1).
    destruct (IH (fst (invoke io c st)) Hok1) as (Iout & Ipos & Iplayed);
      [now rewrite Hl1 | now rewrite Hpos, HF1 |].
    repeat split.
    + now rewrite Hout, Iout, repeat_app.
    + now rewrite Ipos, HF1.
    + now rewrite Iplayed, Hplayed.
Qed.

End Sessions.

Lemma fold_left_write_room (fs : list Frame) :
  forall r : MultiChannelRecording.t,
  Z.of_nat (length (MultiChannelRecording.mFrames r))
  + Z.of_nat (length fs) <= MultiChannelRecording.mMaxFrames r ->
  MultiChannelRecording.mFrames (fold_left MultiChannelRecording.write fs r)
  = MultiChannelRecording.mFrames r ++ fs.
Proof.
  induction fs as [|f fs IH]; intros r Hroom.
  - cbn. now rewrite app_nil_r.
  - cbn [fold_left length] in *.
    assert (MultiChannelRecording.write r f
            = {| MultiChannelRecording.mChannelCount :=
                   MultiChannelRecording.mChannelCount r;
                 MultiChannelRecording.mMaxFrames :=
                   MultiChannelRecording.mMaxFrames r;
                 MultiChannelRecording.mFrames :=
                   MultiChannelRecording.mFrames r ++ [f] |}) as Hw.
    { unfold MultiChannelRecording.write.
      destruct (_ <? _) eqn:E; [reflexivity | lia]. }
    rewrite Hw, IH.
    + cbn. now rewrite <- app_assoc.
    + cbn. rewrite length_app. cbn. lia.
Qed.

(** The output half alone decides the output block, the cursor and the
    played counter of an invocation. *)
Lemma onBothStreamsReadyFloat_playback io inp M N st :
  let oc := getChannelCount (getOutputStream io) in
  let result := onBothStreamsReadyFloat io inp M N st in
  snd (fst result) = snd (processOutput oc N st)
  /\ mPlaybackPosition (fst (fst result))
     = mPlaybackPosition (fst (processOutput oc N st))
  /\ mPlayedFrameCount (fst (fst result))
     = mPlayedFrameCount (fst (processOutput oc N st))
  /\ snd result = Continue.
Proof.
  intros oc result. unfold result.
  rewrite onBothStreamsReadyFloat_eq. cbn [fst snd].
  pose proof (recordLoop_playbackView (getChannelCount (getInputStream io))
                (Z.to_nat M) inp (fst (processOutput oc N st))) as V.
  apply playbackView_fields in V. destruct V as (_ & Vpos & Vplayed & _).
  fold oc. rewrite Vpos, Vplayed. auto.
Qed.

(** ** The life of an object and its peak detectors *)

Lemma process_nonneg (d : PeakDetector.t) (sample : Sample) :
  (0 <= PeakDetector.getLevel d)%Q ->
  (0 <= PeakDetector.getLevel (PeakDetector.process d sample))%Q.
Proof.
  intros Hd. unfold PeakDetector.process, PeakDetector.getLevel in *.
  destruct (Qle_bool _ _); cbn [PeakDetector.mLevel].
  - apply Qmult_le_0_compat; [exact Hd|].
    unfold PeakDetector.kDecay, Qle. cbn. lia.
  - apply Qabs_nonneg.
Qed.

Lemma processDetectors_ok inp count : forall ch detectors,
  Forall (fun d => (0 <= PeakDetector.getLevel d)%Q) detectors ->
  length (processDetectors inp ch count detectors) = length detectors
  /\ Forall (fun d => (0 <= PeakDetector.getLevel d)%Q)
       (processDetectors inp ch count detectors).
Proof.
  induction count as [|count IH]; intros ch detectors Hall.
  - cbn. auto.
  - destruct detectors as [|d rest]; cbn [processDetectors]; [auto|].
    inversion Hall as [|? ? Hd Hrest]; subst.
    destruct (IH (S ch) rest Hrest) as [Hlen Hall'].
    split; [cbn; now rewrite Hlen|].
    constructor; [now apply process_nonneg | exact Hall'].
Qed.

Lemma detectors_ok_view io b (a st : State) :
  captureView a = captureView st -> detectors_ok io b st ->
  detectors_ok io b a.
Proof.
  unfold captureView, detectors_ok. intros H. injection H as _ _ Hn Hd.
  now rewrite Hn, Hd.
Qed.

Lemma playLoop_captureView oc n : forall st,
  captureView (fst (playLoop oc n st)) = captureView st.
Proof.
  induction n as [|n IH]; intros st; [reflexivity|].
  cbn [playLoop].
  destruct (mPlaybackPosition st >=? mPlaybackNumFrames st);
    [destruct (mLoopPlayback st); [|reflexivity] |].
  - pose proof (IH (fst (playFrame oc (set_mPlaybackPosition 0 st)))) as H.
    unfold playFrame in *. cbn [fst] in H.
    destruct (playLoop oc n _) as [st' frames]. exact H.
  - pose proof (IH (fst (playFrame oc st))) as H.
    unfold playFrame in *. cbn [fst] in H.
    destruct (playLoop oc n _) as [st' frames]. exact H.
Qed.

Lemma processOutput_captureView oc N st :
  captureView (fst (processOutput oc N st)) = captureView st.
Proof.
  unfold processOutput. destruct (noAudioLoaded st); [reflexivity|].
  apply playLoop_captureView.
Qed.

Lemma recordFrame_detectors_ok io b ic inp st :
  detectors_ok io b st -> detectors_ok io b (recordFrame ic inp st).
Proof.
  unfold detectors_ok, recordFrame.
  cbn [mPeakDetectors mNumInputChannels set_mRecordedFrameCount
       set_mPeakDetectors set_mRecordedRecording].
  destruct (mPeakDetectors st) as [detectors|]; cbn [option_map]; [|auto].
  intros (Hb & Hn & Hlen & Hall).
  destruct (processDetectors_ok inp
              (Z.to_nat (Z.min ic (mNumInputChannels st))) 0 detectors Hall)
    as [Hlen' Hall'].
  repeat split; try assumption. now rewrite Hlen'.
Qed.

Lemma recordLoop_detectors_ok io b ic n : forall inp st,
  detectors_ok io b st -> detectors_ok io b (recordLoop ic inp n st).
Proof.
  induction n as [|n IH]; intros inp st Hok; [exact Hok|].
  cbn [recordLoop]. apply IH. now apply recordFrame_detectors_ok.
Qed.

Lemma loadAudioData_captureView audioData numFrames channelCount sampleRate
    st :
  captureView
    (snd (loadAudioData audioData numFrames channelCount sampleRate st))
  = captureView st.
Proof.
  unfold loadAudioData. destruct audioData as [data|]; [|reflexivity].
  destruct ((numFrames <=? 0) || (channelCount <=? 0)); reflexivity.
Qed.

Lemma reachable_detectors_ok io b st :
  reachable io b st -> detectors_ok io b st.
Proof.
  induction 1 as [ | b st Hn _ _ | b st a f c r _ IH | b st l _ IH
                   | b st c _ IH ].
  - reflexivity.
  - unfold detectors_ok. cbn [start mPeakDetectors mNumInputChannels].
    repeat split.
    + apply repeat_length.
    + apply Forall_forall. intros d Hd. apply repeat_spec in Hd. subst d.
      apply Qle_refl.
  - apply (detectors_ok_view io b _ st); [|exact IH].
    apply loadAudioData_captureView.
  - exact IH.
  - unfold invoke. rewrite onBothStreamsReadyFloat_eq. cbn [fst].
    apply recordLoop_detectors_ok.
    apply (detectors_ok_view io b _ st); [|exact IH].
    apply processOutput_captureView.
Qed.

Lemma sentinels_differ :
  kNotStarted <> kOutOfRange /\ ~ (kNotStarted == kOutOfRange)%Q.
Proof. split; [discriminate | intros H; discriminate H]. Qed.

(** ** The control calls keep the clip invariant *)

Lemma clip_ok_start io st : clip_ok st -> clip_ok (start io st).
Proof.
  intros [Hp Hc Hl Hf]. constructor; cbn; try assumption. lia.
Qed.

Lemma clip_ok_setLoopPlayback loop st :
  clip_ok st -> clip_ok (setLoopPlayback loop st).
Proof. intros [Hp Hc Hl Hf]. constructor; assumption. Qed.

Lemma clip_ok_started : clip_ok started.
Proof. apply clip_ok_start, clip_ok_construct. Qed.

Lemma clip_ok_loaded10 : clip_ok loaded10.
Proof. concrete_clip_ok. Qed.

(** * Main results *)

(** C1, as amended.  Over any sequence of invocations,
    [recordedFrameCount] grows by exactly the number of input frames
    given, and [playedFrameCount] grows by exactly the number of output
    frames copied from the clip: all the requested frames when a clip is
    loaded and looping is on, and fewer otherwise, because frames filled
    with silence are not counted.  Both counters are non-decreasing.
    (The counters are 64-bit; the statement is for sessions that do not
    overflow them.) *)
Theorem counters_count_clip_and_input_frames io calls st :
  clip_ok st ->
  0 <= mPlayedFrameCount st -> 0 <= mRecordedFrameCount st ->
  mPlayedFrameCount st + Z.of_nat (totalOut calls) <= INT64_MAX ->
  mRecordedFrameCount st + Z.of_nat (totalIn calls) <= INT64_MAX ->
  let st' := fst (run io calls st) in
  length (snd (run io calls st)) = totalOut calls
  /\ mRecordedFrameCount st'
     = mRecordedFrameCount st + Z.of_nat (totalIn calls)
  /\ mPlayedFrameCount st'
     = mPlayedFrameCount st + Z.of_nat (clipFramesRun io calls st)
  /\ (clipFramesRun io calls st <= totalOut calls)%nat
  /\ (0 < mPlaybackNumFrames st -> mLoopPlayback st = true ->
      clipFramesRun io calls st = totalOut calls)
  /\ mPlayedFrameCount st <= mPlayedFrameCount st'
  /\ mRecordedFrameCount st <= mRecordedFrameCount st'.
Proof.
  intros Hok Hp0 Hr0 Hpmax Hrmax st'.
  destruct (run_counters io calls st Hok)
    as (_ & _ & Hplayed & Hrec & Hlen & Hle).
  fold st' in Hplayed, Hrec.
  rewrite bump64_exact in Hplayed by lia.
  rewrite bump64_exact in Hrec by lia.
  repeat split; try (assumption || lia).
  intros HF Hloop. now apply run_loop_counts.
Qed.

Lemma counters_count_clip_and_input_frames_witness :
  let calls := [request 3 25; request 4 4] in
  let st' := fst (run stereo48k calls loaded10) in
  length (snd (run stereo48k calls loaded10)) = totalOut calls
  /\ mRecordedFrameCount st'
     = mRecordedFrameCount loaded10 + Z.of_nat (totalIn calls)
  /\ mPlayedFrameCount st'
     = mPlayedFrameCount loaded10
       + Z.of_nat (clipFramesRun stereo48k calls loaded10)
  /\ (clipFramesRun stereo48k calls loaded10 <= totalOut calls)%nat
  /\ (0 < mPlaybackNumFrames loaded10 -> mLoopPlayback loaded10 = true ->
      clipFramesRun stereo48k calls loaded10 = totalOut calls)
  /\ mPlayedFrameCount loaded10 <= mPlayedFrameCount st'
  /\ mRecordedFrameCount loaded10 <= mRecordedFrameCount st'.
Proof.
  apply (counters_count_clip_and_input_frames stereo48k
           [request 3 25; request 4 4] loaded10).
  - concrete_clip_ok.
  - cbn. lia.
  - cbn. lia.
  - vm_compute. discriminate.
  - vm_compute. discriminate.
Defined.

(** C1 fails as stated: with no clip loaded, a request for four output
    frames produces four frames of silence and leaves [playedFrameCount]
    where it was. *)
Lemma silence_is_not_counted_counterexample :
  let st' := fst (invoke stereo48k (request 4 4) started) in
  let out := snd (invoke stereo48k (request 4 4) started) in
  out = repeat (silence 2) 4
  /\ mPlayedFrameCount started = 0
  /\ mPlayedFrameCount st' = 0
  /\ mPlayedFrameCount st' <> mPlayedFrameCount started + 4.
Proof. vm_compute. repeat split; discriminate. Qed.

(** C2, as amended.  The output of an invocation is the frames copied
    from the clip followed by the silence-fill frames.  The played
    recording, when [start()] has allocated it, receives exactly the
    frames copied from the clip, in order, one [write] each; silence-fill
    frames are not written to it.  While the recording has room, its
    history grows by exactly those clip frames. *)
Theorem played_recording_holds_clip_frames io c st :
  clip_ok st ->
  let oc := getChannelCount (getOutputStream io) in
  let k := clipFramesPlayed st (numOutputFrames c) in
  let st' := fst (invoke io c st) in
  let out := snd (invoke io c st) in
  out = firstn k out ++ repeat (silence oc) (Z.to_nat (numOutputFrames c) - k)
  /\ firstn k out = clipFrames st oc k
  /\ mPlayedRecording st'
     = option_map
         (fun r => fold_left MultiChannelRecording.write (firstn k out) r)
         (mPlayedRecording st)
  /\ (forall r, mPlayedRecording st = Some r ->
        Z.of_nat (length (MultiChannelRecording.mFrames r)) + Z.of_nat k
        <= MultiChannelRecording.mMaxFrames r ->
        exists r', mPlayedRecording st' = Some r'
          /\ MultiChannelRecording.mFrames r'
             = MultiChannelRecording.mFrames r ++ firstn k out).
Proof.
  intros Hok oc k st' out.
  destruct (invoke_spec io c st Hok) as [Hout _ _ Hrec _ _ _].
  fold oc k st' out in Hout, Hrec.
  assert (firstn k out = clipFrames st oc k) as Hfirst.
  { rewrite Hout, firstn_app, length_clipFrames, Nat.sub_diag.
    cbn [firstn]. rewrite app_nil_r.
    apply firstn_all2. rewrite length_clipFrames. lia. }
  repeat split.
  - rewrite Hfirst. exact Hout.
  - exact Hfirst.
  - now rewrite Hfirst.
  - intros r Hr Hroom. rewrite Hrec, Hr. cbn [option_map].
    eexists. split; [reflexivity|].
    rewrite Hfirst. apply fold_left_write_room.
    rewrite length_clipFrames. exact Hroom.
Qed.

Lemma played_recording_holds_clip_frames_witness :
  let k := clipFramesPlayed loaded10 25 in
  let st' := fst (invoke stereo48k (request 3 25) loaded10) in
  let out := snd (invoke stereo48k (request 3 25) loaded10) in
  k = 25%nat
  /\ option_map MultiChannelRecording.mFrames (mPlayedRecording st')
     = Some (firstn k out).
Proof.
  pose proof (played_recording_holds_clip_frames stereo48k (request 3 25)
                loaded10) as H.
  cbv zeta in H.
  destruct H as (_ & _ & Hrec & _).
  - concrete_clip_ok.
  - split; [reflexivity|]. cbv zeta. rewrite Hrec.
    vm_compute. reflexivity.
Defined.

(** C2 fails as stated: with no clip loaded, two frames of silence are
    emitted and the played recording stays empty. *)
Lemma silence_is_not_recorded_counterexample :
  let st' := fst (invoke stereo48k (request 0 2) started) in
  let out := snd (invoke stereo48k (request 0 2) started) in
  out = [[0%Q; 0%Q]; [0%Q; 0%Q]]
  /\ option_map MultiChannelRecording.mFrames (mPlayedRecording st')
     = Some []
  /\ option_map MultiChannelRecording.mFrames (mPlayedRecording st')
     <> Some out.
Proof. vm_compute. repeat split; discriminate. Qed.

(** C3, as amended.  For a loaded clip of F > 0 frames with looping on
    and the cursor at 0, the i-th output frame of a session is clip
    frame [i mod F], however the frames are split into requests, so the
    frames repeat with period F and a request longer than F runs through
    the clip several times.  The wrap of the cursor is deferred to the
    next frame: after exactly k*F output frames (k >= 1) the cursor is
    F, the position that stands for frame 0 of the next pass, not 0. *)
Theorem loop_wraps_lazily io calls st :
  clip_ok st -> 0 < mPlaybackNumFrames st -> mLoopPlayback st = true ->
  mPlaybackPosition st = 0 ->
  let oc := getChannelCount (getOutputStream io) in
  let F := mPlaybackNumFrames st in
  let st' := fst (run io calls st) in
  let out := snd (run io calls st) in
  out = map (fun i => clipFrame st oc (Z.of_nat i mod F))
            (seq 0 (totalOut calls))
  /\ (forall i, (i + Z.to_nat F < totalOut calls)%nat ->
        nth (i + Z.to_nat F) out [] = nth i out [])
  /\ (forall k, 1 <= k -> Z.of_nat (totalOut calls) = k * F ->
        mPlaybackPosition st' = F)
  /\ (forall t, totalOut calls = S t ->
        mPlaybackPosition st' = Z.of_nat t mod F + 1).
Proof.
  intros Hok HF Hloop Hpos oc F st' out.
  destruct (run_loop io calls st Hok HF Hloop) as [Hout Hcur].
  fold oc st' out in Hout, Hcur. fold F in HF.
  assert (out = map (fun i => clipFrame st oc (Z.of_nat i mod F))
                    (seq 0 (totalOut calls))) as Hout'.
  { rewrite Hout. unfold clipFrames. now rewrite Hpos. }
  assert (forall i, (i < totalOut calls)%nat ->
            nth i out [] = clipFrame st oc (Z.of_nat i mod F)) as Hnth.
  { intros i Hi. rewrite Hout'.
    rewrite (nth_indep _ [] (clipFrame st oc (Z.of_nat 0 mod F)))
      by (now rewrite length_map, length_seq).
    rewrite (map_nth (fun i => clipFrame st oc (Z.of_nat i mod F))).
    now rewrite seq_nth. }
  assert (forall t, totalOut calls = S t ->
            mPlaybackPosition st' = Z.of_nat t mod F + 1) as Hlast.
  { intros t Ht. rewrite Hcur, Ht. cbn [cursorAfter].
    now rewrite Hpos. }
  repeat split.
  - exact Hout'.
  - intros i Hi. rewrite !Hnth by lia. f_equal.
    rewrite Nat2Z.inj_add, Z2Nat.id by lia.
    rewrite <- (Z.mul_1_l F) at 1. apply Z_mod_plus_full.
  - intros k Hk HT. destruct (totalOut calls) as [|t] eqn:ET; [nia|].
    rewrite (Hlast t eq_refl).
    replace (Z.of_nat t) with (F - 1 + (k - 1) * F) by lia.
    rewrite Z_mod_plus_full, Z.mod_small; lia.
  - exact Hlast.
Qed.

Lemma loop_wraps_lazily_witness :
  let st' := fst (run stereo48k [request 0 25; request 0 5] loaded10) in
  let out := snd (run stereo48k [request 0 25; request 0 5] loaded10) in
  nth 17 out [] = nth 7 out [] /\ mPlaybackPosition st' = 10.
Proof.
  destruct (loop_wraps_lazily stereo48k [request 0 25; request 0 5] loaded10)
    as (_ & Hperiod & Hwhole & _).
  - concrete_clip_ok.
  - cbn. lia.
  - reflexivity.
  - reflexivity.
  - split.
    + apply (Hperiod 7%nat). vm_compute. lia.
    + apply (Hwhole 3). lia. reflexivity.
Defined.

(** C3 fails as stated: after exactly one pass through a ten-frame clip
    the cursor is 10, not 0. *)
Lemma cursor_after_one_pass_counterexample :
  let st' := fst (invoke stereo48k (request 0 10) loaded10) in
  mPlaybackNumFrames loaded10 = 10
  /\ mLoopPlayback loaded10 = true
  /\ length (snd (invoke stereo48k (request 0 10) loaded10)) = 10%nat
  /\ mPlaybackPosition st' = 10
  /\ mPlaybackPosition st' <> 0.
Proof. vm_compute. repeat split; discriminate. Qed.

(** C4.  After [start()] on 2-channel 48000 Hz streams, loading a
    ten-frame mono clip of constant 0.5 and asking for 25 output frames
    in one call gives 25 frames [0.5, 0.5], the cursor at 5 and
    [playedFrameCount] at 25, whatever the input block is. *)
Theorem end_to_end_scenario (inp : FloatPtr) (M : Z) :
  let st0 := start stereo48k construct in
  let loaded := loadAudioData (Some half_clip) 10 1 48000 st0 in
  let result := onBothStreamsReadyFloat stereo48k inp M 25 (snd loaded) in
  fst loaded = 0
  /\ mLoopPlayback (snd loaded) = true
  /\ snd (fst result) = repeat [(1 # 2)%Q; (1 # 2)%Q] 25
  /\ mPlaybackPosition (fst (fst result)) = 5
  /\ mPlayedFrameCount (fst (fst result)) = 25
  /\ snd result = Continue.
Proof.
  intros st0 loaded result.
  destruct (onBothStreamsReadyFloat_playback stereo48k inp M 25 (snd loaded))
    as (Hout & Hpos & Hplayed & Hres).
  fold result in Hout, Hpos, Hplayed, Hres.
  rewrite Hout, Hpos, Hplayed, Hres.
  vm_compute. repeat split; reflexivity.
Qed.

(** C5.  When no clip is loaded (the sample buffer is empty or the frame
    count is zero), the output of an invocation is [numOutputFrames]
    frames of zeros. *)
Theorem silence_when_no_clip io inp M N st :
  mPlaybackBuffer st = [] \/ mPlaybackNumFrames st = 0 ->
  let oc := getChannelCount (getOutputStream io) in
  let out := snd (fst (onBothStreamsReadyFloat io inp M N st)) in
  out = repeat (silence oc) (Z.to_nat N)
  /\ length out = Z.to_nat N
  /\ (forall frame, In frame out ->
        length frame = Z.to_nat oc /\ forall s, In s frame -> s = 0%Q).
Proof.
  intros Hno oc out.
  assert (noAudioLoaded st = true) as Hna.
  { unfold noAudioLoaded. destruct Hno as [-> | ->]; [reflexivity|].
    apply orb_true_r. }
  assert (out = repeat (silence oc) (Z.to_nat N)) as Hout.
  { unfold out. rewrite onBothStreamsReadyFloat_eq. cbn [fst snd].
    unfold processOutput. now rewrite Hna. }
  split; [exact Hout|]. split; [rewrite Hout; apply repeat_length|].
  intros frame Hin. rewrite Hout in Hin. apply repeat_spec in Hin.
  subst frame. split; [apply repeat_length|].
  intros s Hs. now apply repeat_spec in Hs.
Qed.

Lemma silence_when_no_clip_witness :
  snd (fst (onBothStreamsReadyFloat stereo48k half_clip 3 3 started))
  = [[0%Q; 0%Q]; [0%Q; 0%Q]; [0%Q; 0%Q]].
Proof.
  destruct (silence_when_no_clip stereo48k half_clip 3 3 started)
    as (Hout & _).
  - left. reflexivity.
  - rewrite Hout. reflexivity.
Defined.

(** C6.  Every output frame that is copied from the clip (the cursor is
    then inside the clip, at frame [f]) carries in its channel [ch] the
    clip sample of frame [f] at source channel [ch mod channelCount],
    read from inside the buffer; a mono clip played on two output
    channels puts the same sample in both. *)
Theorem channel_conversion io c st (j : nat) :
  clip_ok st ->
  (j < clipFramesPlayed st (numOutputFrames c))%nat ->
  let oc := getChannelCount (getOutputStream io) in
  let C := mPlaybackChannelCount st in
  let f := (mPlaybackPosition st + Z.of_nat j) mod mPlaybackNumFrames st in
  let frame := nth j (snd (invoke io c st)) [] in
  0 <= f < mPlaybackNumFrames st
  /\ frame = copyFrame oc (set_mPlaybackPosition f st)
  /\ (forall ch, 0 <= ch < oc ->
        nth (Z.to_nat ch) frame 0%Q
        = nth (Z.to_nat (f * C + ch mod C)) (mPlaybackBuffer st) 0%Q
        /\ 0 <= f * C + ch mod C < Z.of_nat (length (mPlaybackBuffer st)))
  /\ (C = 1 -> oc = 2 ->
        frame = [nth (Z.to_nat f) (mPlaybackBuffer st) 0%Q;
                 nth (Z.to_nat f) (mPlaybackBuffer st) 0%Q]).
Proof.
  intros Hok Hj oc C f frame.
  destruct (invoke_spec io c st Hok) as [Hout _ _ _ _ _ _].
  assert (0 < mPlaybackNumFrames st) as HF.
  { destruct (clipFramesPlayed_cases st (numOutputFrames c) Hok); lia. }
  assert (0 <= f < mPlaybackNumFrames st) as Hf
    by (apply Z.mod_pos_bound; exact HF).
  assert (frame = clipFrame st oc f) as Hframe.
  { unfold frame. rewrite Hout. now apply nth_clipFrames. }
  pose proof (clip_chan st Hok) as HC. fold C in HC.
  split; [exact Hf|]. split; [|split].
  - rewrite Hframe. symmetry.
    assert (clip_ok (set_mPlaybackPosition f st)) as Hok'
      by (destruct Hok; constructor; cbn; (assumption || lia)).
    rewrite (copyFrame_clipFrame _ oc Hok') by (cbn; lia).
    reflexivity.
  - intros ch Hch. split.
    + rewrite Hframe. now apply nth_clipFrame.
    + pose proof (Z.mod_pos_bound ch C HC).
      rewrite (clip_len st Hok). fold C. nia.
  - intros HC1 Hoc. rewrite Hframe. unfold clipFrame. fold C.
    rewrite HC1, Hoc. change (channels 2) with [0; 1]. cbn [map].
    rewrite !Z.mod_1_r, Z.mul_1_r, Z.add_0_r. reflexivity.
Qed.

Lemma channel_conversion_witness :
  nth 12 (snd (invoke stereo48k (request 0 25) loaded10)) []
  = [nth 2 (mPlaybackBuffer loaded10) 0%Q;
     nth 2 (mPlaybackBuffer loaded10) 0%Q].
Proof.
  destruct (channel_conversion stereo48k (request 0 25) loaded10 12)
    as (_ & _ & _ & Hmono).
  - concrete_clip_ok.
  - vm_compute. lia.
  - apply Hmono; reflexivity.
Defined.

(** C7.  With looping off and the cursor at the end of the clip, every
    later invocation leaves the cursor there and produces only frames of
    zeros; a successful [loadAudioData] then puts the cursor back to 0. *)
Theorem no_loop_stays_ended io calls st :
  clip_ok st -> mLoopPlayback st = false ->
  mPlaybackPosition st = mPlaybackNumFrames st ->
  let oc := getChannelCount (getOutputStream io) in
  let st' := fst (run io calls st) in
  let out := snd (run io calls st) in
  mPlaybackPosition st' = mPlaybackNumFrames st
  /\ mLoopPlayback st' = false
  /\ out = repeat (silence oc) (totalOut calls)
  /\ (forall frame, In frame out -> forall s, In s frame -> s = 0%Q)
  /\ (forall data numFrames channelCount sampleRate,
        0 < numFrames -> 0 < channelCount ->
        numFrames * channelCount <= INT32_MAX ->
        fst (loadAudioData (Some data) numFrames channelCount sampleRate st')
        = 0
        /\ mPlaybackPosition
             (snd (loadAudioData (Some data) numFrames channelCount
                     sampleRate st')) = 0).
Proof.
  intros Hok Hloop Hend oc st' out.
  destruct (run_ended io calls st Hok Hloop Hend) as (Hout & Hpos & _).
  destruct (run_counters io calls st Hok) as (_ & Hclip & _).
  destruct (clipView_fields _ _ Hclip) as (_ & _ & _ & Hl).
  fold oc out in Hout. fold st' in Hpos, Hl.
  split; [exact Hpos|]. split; [now rewrite Hl|]. split; [exact Hout|].
  split.
  - intros frame Hin s Hs. rewrite Hout in Hin.
    apply repeat_spec in Hin. subst frame. now apply repeat_spec in Hs.
  - intros data numFrames channelCount sampleRate HF HC Hfit.
    now rewrite (loadAudioData_valid _ _ _ _ _ HF HC Hfit).
Qed.

Lemma no_loop_stays_ended_witness :
  let calls := [request 0 3; request 2 4] in
  mPlaybackPosition ended10 = 10
  /\ mPlaybackPosition (fst (run stereo48k calls ended10)) = 10
  /\ snd (run stereo48k calls ended10) = repeat [0%Q; 0%Q] 7.
Proof.
  destruct (no_loop_stays_ended stereo48k [request 0 3; request 2 4] ended10)
    as (Hpos & _ & Hout & _).
  - concrete_clip_ok.
  - reflexivity.
  - reflexivity.
  - split; [reflexivity|]. split; [exact Hpos | exact Hout].
Defined.

(** C8.  Before [start()], [getPeakLevel] returns the "not started"
    value -1 for every index.  After [start()], every index outside
    [0, inputChannelCount), in particular -1 and [inputChannelCount],
    gives the "out of range" value -2, which is not the "not started"
    value; every index inside the range gives the level of that
    channel's detector, which is not negative. *)
Theorem getPeakLevel_sentinels io isStarted st :
  reachable io isStarted st ->
  let inputChannelCount := getChannelCount (getInputStream io) in
  (kNotStarted <> kOutOfRange /\ ~ (kNotStarted == kOutOfRange)%Q)
  /\ (isStarted = false ->
      forall index, getPeakLevel index st = kNotStarted)
  /\ (isStarted = true ->
      getPeakLevel (-1) st = kOutOfRange
      /\ getPeakLevel inputChannelCount st = kOutOfRange
      /\ (forall index, index < 0 \/ inputChannelCount <= index ->
            getPeakLevel index st = kOutOfRange)
      /\ (forall index, 0 <= index < inputChannelCount ->
            exists detectors d,
              mPeakDetectors st = Some detectors
              /\ nth_error detectors (Z.to_nat index) = Some d
              /\ getPeakLevel index st = PeakDetector.getLevel d
              /\ (0 <= getPeakLevel index st)%Q)).
Proof.
  intros Hreach n. apply reachable_detectors_ok in Hreach.
  unfold detectors_ok in Hreach.
  split; [exact sentinels_differ|]. split.
  - intros -> index. unfold getPeakLevel.
    destruct (mPeakDetectors st); [|reflexivity].
    destruct Hreach as [Hb _]. discriminate.
  - intros ->. destruct (mPeakDetectors st) as [detectors|] eqn:E;
      [|discriminate].
    destruct Hreach as (_ & Hn & Hlen & Hall). fold n in Hn.
    assert (forall index, index < 0 \/ n <= index ->
              getPeakLevel index st = kOutOfRange) as Hout.
    { intros index Hi. unfold getPeakLevel. rewrite E, Hn.
      destruct (index <? 0) eqn:E1; [reflexivity|].
      destruct (index >=? n) eqn:E2; [reflexivity | lia]. }
    split; [apply Hout; lia|]. split; [apply Hout; lia|].
    split; [exact Hout|].
    intros index Hi.
    assert (Z.to_nat index < length detectors)%nat as Hlt by lia.
    destruct (nth_error detectors (Z.to_nat index)) as [d|] eqn:En;
      [|apply nth_error_None in En; lia].
    assert (getPeakLevel index st = PeakDetector.getLevel d) as Hget.
    { unfold getPeakLevel. rewrite E, Hn.
      destruct (index <? 0) eqn:E1; [lia|].
      destruct (index >=? n) eqn:E2; [lia|]. cbn [orb].
      now rewrite (nth_error_nth _ _ _ En). }
    exists detectors, d. repeat split; try assumption.
    rewrite Hget. rewrite Forall_forall in Hall. apply Hall.
    now apply nth_error_In in En.
Qed.

Lemma getPeakLevel_sentinels_witness :
  let st := fst (invoke stereo48k (request 3 25) loaded10) in
  getPeakLevel 0 construct = kNotStarted
  /\ getPeakLevel (-1) st = kOutOfRange
  /\ getPeakLevel 2 st = kOutOfRange
  /\ (0 <= getPeakLevel 1 st)%Q.
Proof.
  assert (reachable stereo48k true
            (fst (invoke stereo48k (request 3 25) loaded10))) as Hreach.
  { apply reach_callback. unfold loaded10. apply reach_loadAudioData.
    unfold started. apply (reach_start stereo48k false); [cbn; lia|].
    apply reach_construct. }
  destruct (getPeakLevel_sentinels stereo48k true _ Hreach)
    as (_ & _ & Hafter).
  destruct (Hafter eq_refl) as (Hneg & Hcount & _ & Hin).
  destruct (Hin 1) as (detectors & d & _ & _ & _ & Hlevel); [cbn; lia|].
  destruct (getPeakLevel_sentinels stereo48k false construct
              (reach_construct stereo48k)) as (_ & Hbefore & _).
  cbv zeta. split; [exact (Hbefore eq_refl 0)|].
  split; [exact Hneg|]. split; [exact Hcount | exact Hlevel].
Defined.

(** C9.  [loadAudioData] with a null pointer, a non-positive frame count
    or a non-positive channel count returns a negative code and leaves
    the object as it was.  With valid arguments (whose sample count
    [numFrames * channelCount] is a representable [int32_t], as the
    multiplication in the source needs) it returns 0, the buffer
    becomes a copy of the samples given, the clip's frame count,
    channel count and sample rate are the ones given, the cursor is 0,
    and nothing else changes. *)
Theorem loadAudioData_spec audioData numFrames channelCount sampleRate st :
  let code := fst (loadAudioData audioData numFrames channelCount
                     sampleRate st) in
  let st' := snd (loadAudioData audioData numFrames channelCount
                    sampleRate st) in
  (audioData = None \/ numFrames <= 0 \/ channelCount <= 0 ->
   code < 0 /\ st' = st)
  /\ (forall data, audioData = Some data ->
      0 < numFrames -> 0 < channelCount ->
      numFrames * channelCount <= INT32_MAX ->
      code = 0
      /\ mPlaybackBuffer st'
         = map data (seq 0 (Z.to_nat (numFrames * channelCount)))
      /\ Z.of_nat (length (mPlaybackBuffer st')) = numFrames * channelCount
      /\ (forall i, (i < Z.to_nat (numFrames * channelCount))%nat ->
            nth i (mPlaybackBuffer st') 0%Q = data i)
      /\ mPlaybackNumFrames st' = numFrames
      /\ mPlaybackChannelCount st' = channelCount
      /\ mPlaybackSampleRate st' = sampleRate
      /\ mPlaybackPosition st' = 0
      /\ mLoopPlayback st' = mLoopPlayback st
      /\ mPlayedFrameCount st' = mPlayedFrameCount st
      /\ mPlayedRecording st' = mPlayedRecording st
      /\ captureView st' = captureView st).
Proof.
  intros code st'. split.
  - intros Hbad. unfold code, st', loadAudioData.
    destruct audioData as [data|]; [|cbn; split; [lia | reflexivity]].
    destruct Hbad as [Hnull | [HF | HC]]; [discriminate | |].
    + assert ((numFrames <=? 0) = true) as -> by lia.
      cbn. split; [lia | reflexivity].
    + assert ((channelCount <=? 0) = true) as -> by lia.
      rewrite orb_true_r. cbn. split; [lia | reflexivity].
  - intros data -> HF HC Hfit. unfold code, st'.
    rewrite (loadAudioData_valid _ _ _ _ _ HF HC Hfit).
    cbn [fst snd mPlaybackBuffer mPlaybackNumFrames mPlaybackChannelCount
         mPlaybackSampleRate mPlaybackPosition mLoopPlayback
         mPlayedFrameCount mPlayedRecording].
    repeat split.
    + rewrite length_map, length_seq. nia.
    + intros i Hi.
      rewrite (nth_indep _ 0%Q (data 0%nat))
        by (now rewrite length_map, length_seq).
      now rewrite map_nth, seq_nth.
Qed.

Lemma loadAudioData_spec_witness :
  (fst (loadAudioData None 10 1 48000 ended10) < 0
   /\ snd (loadAudioData None 10 1 48000 ended10) = ended10)
  /\ (fst (loadAudioData (Some half_clip) 0 1 48000 ended10) < 0
      /\ snd (loadAudioData (Some half_clip) 0 1 48000 ended10) = ended10)
  /\ fst (loadAudioData (Some half_clip) 4 2 48000 ended10) = 0
  /\ mPlaybackPosition
       (snd (loadAudioData (Some half_clip) 4 2 48000 ended10)) = 0.
Proof.
  split; [|split].
  - apply (proj1 (loadAudioData_spec None 10 1 48000 ended10)).
    left. reflexivity.
  - apply (proj1 (loadAudioData_spec (Some half_clip) 0 1 48000 ended10)).
    right. left. lia.
  - destruct (proj2 (loadAudioData_spec (Some half_clip) 4 2 48000 ended10)
                half_clip)
      as (Hcode & _ & _ & _ & _ & _ & _ & Hpos & _).
    + reflexivity.
    + lia.
    + lia.
    + vm_compute. discriminate.
    + split; [exact Hcode | exact Hpos].
Defined.

(** C10.  Looping is on in a freshly constructed object.  When a clip
    of F frames is loaded into it (before or after [start()]) and
    [setLoopPlayback] is never called, the i-th output frame of a request
    is clip frame [i mod F]: at the end of the clip, playback goes on
    with frame 0 instead of silence. *)
Theorem loop_enabled_by_default io (afterStart : bool)
    data numFrames channelCount sampleRate inp M N :
  0 < numFrames -> 0 < channelCount ->
  numFrames * channelCount <= INT32_MAX ->
  let oc := getChannelCount (getOutputStream io) in
  let fresh := if afterStart then start io construct else construct in
  let st := snd (loadAudioData (Some data) numFrames channelCount
                   sampleRate fresh) in
  let out := snd (fst (onBothStreamsReadyFloat io inp M N st)) in
  mLoopPlayback construct = true
  /\ mLoopPlayback st = true
  /\ out = map (fun i => clipFrame st oc (Z.of_nat i mod numFrames))
               (seq 0 (Z.to_nat N))
  /\ (numFrames < N ->
      nth (Z.to_nat numFrames) out []
      = map (fun c => data (Z.to_nat (c mod channelCount))) (channels oc)).
Proof.
  intros HF HC Hfit oc fresh st out.
  pose proof (clip_ok_loadAudioData data _ _ sampleRate fresh HF HC Hfit)
    as Hok.
  fold st in Hok.
  assert (mLoopPlayback st = true) as Hloop.
  { unfold st. rewrite (loadAudioData_valid _ _ _ _ _ HF HC Hfit).
    unfold fresh. now destruct afterStart. }
  assert (mPlaybackNumFrames st = numFrames) as HFst
    by (unfold st; now rewrite (loadAudioData_valid _ _ _ _ _ HF HC Hfit)).
  assert (mPlaybackPosition st = 0) as Hpos
    by (unfold st; now rewrite (loadAudioData_valid _ _ _ _ _ HF HC Hfit)).
  pose (c := {| inputData := inp; numInputFrames := M;
                numOutputFrames := N |}).
  assert (out = snd (invoke io c st)) as Hinv by reflexivity.
  destruct (invoke_spec io c st Hok) as [Hout _ _ _ _ _ _].
  rewrite <- Hinv in Hout. cbn [numOutputFrames c] in Hout.
  rewrite clipFramesPlayed_loop in Hout
    by (assumption || (rewrite HFst; exact HF)).
  rewrite Nat.sub_diag in Hout. cbn [repeat] in Hout.
  rewrite app_nil_r in Hout. unfold clipFrames in Hout.
  rewrite Hpos, HFst in Hout. fold oc in Hout.
  split; [reflexivity|]. split; [exact Hloop|]. split; [exact Hout|].
  intros HN. rewrite Hout.
  rewrite (nth_indep _ [] (clipFrame st oc (Z.of_nat 0 mod numFrames)))
    by (rewrite length_map, length_seq; lia).
  rewrite (map_nth (fun i => clipFrame st oc (Z.of_nat i mod numFrames))).
  rewrite seq_nth by lia. cbn [Nat.add].
  rewrite Z2Nat.id, Z_mod_same_full by lia.
  unfold st. rewrite clipFrame_loaded by lia.
  apply map_ext. intros ch. now rewrite Z.mul_0_l, Z.add_0_l.
Qed.

Lemma loop_enabled_by_default_witness :
  let st := snd (loadAudioData (Some half_clip) 10 1 48000 construct) in
  nth 10 (snd (fst (onBothStreamsReadyFloat stereo48k half_clip 0 12 st))) []
  = [(1 # 2)%Q; (1 # 2)%Q].
Proof.
  destruct (loop_enabled_by_default stereo48k false half_clip 10 1 48000
              half_clip 0 12)
    as (_ & _ & _ & Hwrap).
  - lia.
  - lia.
  - vm_compute. discriminate.
  - cbv zeta. etransitivity; [apply Hwrap; lia | reflexivity].
Defined.

(** * Further properties of the code *)

(** ** The two halves of the callback are independent *)

Lemma mix_same (st : State) : mix st st = st.
Proof. now destruct st. Qed.

(** One turn of the loop, with the pairs taken apart. *)
Lemma playLoop_S oc n st :
  playLoop oc (S n) st
  = let next st0 :=
      (fst (playLoop oc n (fst (playFrame oc st0))),
       snd (playFrame oc st0)
       :: snd (playLoop oc n (fst (playFrame oc st0)))) in
    if mPlaybackPosition st >=? mPlaybackNumFrames st then
      if mLoopPlayback st then next (set_mPlaybackPosition 0 st)
      else (st, repeat (silence oc) (S n))
    else next st.
Proof.
  cbn [playLoop]. cbv zeta.
  destruct (mPlaybackPosition st >=? mPlaybackNumFrames st);
    [destruct (mLoopPlayback st); [|reflexivity] |].
  - destruct (playFrame oc (set_mPlaybackPosition 0 st)) as [st1 frame].
    cbn [fst snd]. now destruct (playLoop oc n st1).
  - destruct (playFrame oc st) as [st1 frame].
    cbn [fst snd]. now destruct (playLoop oc n st1).
Qed.

Lemma playLoop_mix oc n : forall pb cap,
  playLoop oc n (mix pb cap)
  = (mix (fst (playLoop oc n pb)) cap, snd (playLoop oc n pb)).
Proof.
  induction n as [|n IH]; intros pb cap; [reflexivity|].
  rewrite !playLoop_S. cbv zeta.
  change (mPlaybackPosition (mix pb cap)) with (mPlaybackPosition pb).
  change (mPlaybackNumFrames (mix pb cap)) with (mPlaybackNumFrames pb).
  change (mLoopPlayback (mix pb cap)) with (mLoopPlayback pb).
  destruct (mPlaybackPosition pb >=? mPlaybackNumFrames pb);
    [destruct (mLoopPlayback pb); [|reflexivity] |].
  - change (playFrame oc (set_mPlaybackPosition 0 (mix pb cap)))
      with (mix (fst (playFrame oc (set_mPlaybackPosition 0 pb))) cap,
            snd (playFrame oc (set_mPlaybackPosition 0 pb))).
    cbn [fst snd]. now rewrite IH.
  - change (playFrame oc (mix pb cap))
      with (mix (fst (playFrame oc pb)) cap, snd (playFrame oc pb)).
    cbn [fst snd]. now rewrite IH.
Qed.

Lemma processOutput_mix oc N pb cap :
  processOutput oc N (mix pb cap)
  = (mix (fst (processOutput oc N pb)) cap, snd (processOutput oc N pb)).
Proof.
  unfold processOutput.
  change (noAudioLoaded (mix pb cap)) with (noAudioLoaded pb).
  destruct (noAudioLoaded pb); [reflexivity|]. apply playLoop_mix.
Qed.

Lemma recordLoop_mix ic n : forall inp pb cap,
  recordLoop ic inp n (mix pb cap) = mix pb (recordLoop ic inp n cap).
Proof.
  induction n as [|n IH]; intros inp pb cap; [reflexivity|].
  cbn [recordLoop].
  change (recordFrame ic inp (mix pb cap))
    with (mix pb (recordFrame ic inp cap)).
  apply IH.
Qed.

Lemma invoke_mix io c st :
  invoke io c st
  = (mix (fst (processOutput (getChannelCount (getOutputStream io))
                 (numOutputFrames c) st))
         (recordLoop (getChannelCount (getInputStream io)) (inputData c)
            (Z.to_nat (numInputFrames c)) st),
     snd (processOutput (getChannelCount (getOutputStream io))
            (numOutputFrames c) st)).
Proof.
  unfold invoke. rewrite onBothStreamsReadyFloat_eq. cbn [fst snd].
  f_equal.
  rewrite <- (mix_same st) at 1.
  rewrite processOutput_mix. cbn [fst]. apply recordLoop_mix.
Qed.

Lemma mix_ext (a a' b b' : State) :
  playbackView a = playbackView a' -> captureView b = captureView b' ->
  mix a b = mix a' b'.
Proof. intros Hp Hc. apply state_ext; [exact Hp | exact Hc]. Qed.

Lemma processOutput_to_nat oc N st :
  processOutput oc N st = processOutput oc (Z.of_nat (Z.to_nat N)) st.
Proof. unfold processOutput. now rewrite Nat2Z.id. Qed.

Lemma processOutput_view oc N (a b : State) :
  playbackView a = playbackView b ->
  snd (processOutput oc N a) = snd (processOutput oc N b)
  /\ playbackView (fst (processOutput oc N a))
     = playbackView (fst (processOutput oc N b)).
Proof.
  intros H.
  assert (a = mix b a) as Ha
    by (rewrite <- (mix_ext a b a a H eq_refl); symmetry; apply mix_same).
  rewrite Ha, processOutput_mix. cbn [fst snd]. split; reflexivity.
Qed.

Lemma recordLoop_view ic inp n (a b : State) :
  captureView a = captureView b ->
  captureView (recordLoop ic inp n a) = captureView (recordLoop ic inp n b).
Proof.
  intros H.
  assert (a = mix a b) as Ha
    by (rewrite <- (mix_ext a a a b eq_refl H); symmetry; apply mix_same).
  rewrite Ha, recordLoop_mix. reflexivity.
Qed.

(** X1.  Neither half of the callback reads what the other half writes.
    The output block and the playback side of the state after an
    invocation are decided by the playback side before it and the
    number of output frames alone, so the microphone signal never
    reaches the output; the capture side is decided by the capture side
    before it and the input block alone. *)
Theorem halves_are_independent io c1 c2 st1 st2 :
  (playbackView st1 = playbackView st2 ->
   Z.to_nat (numOutputFrames c1) = Z.to_nat (numOutputFrames c2) ->
   snd (invoke io c1 st1) = snd (invoke io c2 st2)
   /\ playbackView (fst (invoke io c1 st1))
      = playbackView (fst (invoke io c2 st2)))
  /\ (captureView st1 = captureView st2 ->
      inputData c1 = inputData c2 ->
      numInputFrames c1 = numInputFrames c2 ->
      captureView (fst (invoke io c1 st1))
      = captureView (fst (invoke io c2 st2))).
Proof.
  rewrite !invoke_mix. cbn [fst snd]. split.
  - intros Hview HN.
    rewrite (processOutput_to_nat _ (numOutputFrames c1)),
            (processOutput_to_nat _ (numOutputFrames c2)), HN.
    apply (processOutput_view _ _ st1 st2 Hview).
  - intros Hview -> ->.
    apply (recordLoop_view _ _ _ st1 st2 Hview).
Qed.

Lemma halves_are_independent_witness :
  snd (invoke stereo48k (request 3 7) loaded10)
  = snd (invoke stereo48k (request 0 7) (start stereo48k loaded10))
  /\ captureView (fst (invoke stereo48k (request 3 7) loaded10))
     = captureView (fst (invoke stereo48k (request 3 0) started)).
Proof.
  split.
  - apply (proj1 (halves_are_independent stereo48k (request 3 7)
                    (request 0 7) loaded10 (start stereo48k loaded10)));
      vm_compute; reflexivity.
  - apply (proj2 (halves_are_independent stereo48k (request 3 7)
                    (request 3 0) loaded10 started));
      vm_compute; reflexivity.
Defined.

(** ** The shape of the output block *)

Lemma length_copyFrame oc st : length (copyFrame oc st) = Z.to_nat oc.
Proof. unfold copyFrame. now rewrite length_map, length_channels. Qed.

Lemma length_silence oc : length (silence oc) = Z.to_nat oc.
Proof. apply repeat_length. Qed.

Lemma Forall_repeat {A} (P : A -> Prop) (x : A) (n : nat) :
  P x -> Forall P (repeat x n).
Proof.
  intros Hx. apply Forall_forall. intros y Hy.
  apply repeat_spec in Hy. now subst y.
Qed.

Lemma playLoop_shape oc n : forall st,
  length (snd (playLoop oc n st)) = n
  /\ Forall (fun frame => length frame = Z.to_nat oc)
       (snd (playLoop oc n st)).
Proof.
  induction n as [|n IH]; intros st; [cbn; auto|].
  rewrite playLoop_S. cbv zeta.
  destruct (mPlaybackPosition st >=? mPlaybackNumFrames st);
    [destruct (mLoopPlayback st) |]; cbn [fst snd].
  - destruct (IH (fst (playFrame oc (set_mPlaybackPosition 0 st))))
      as [Hlen Hall].
    split; [cbn [length]; now rewrite Hlen|].
    constructor; [apply length_copyFrame | exact Hall].
  - split; [apply repeat_length|].
    apply Forall_repeat, length_silence.
  - destruct (IH (fst (playFrame oc st))) as [Hlen Hall].
    split; [cbn [length]; now rewrite Hlen|].
    constructor; [apply length_copyFrame | exact Hall].
Qed.

(** X2.  In every state, whether or not a clip is loaded and whatever
    the cursor, an invocation writes the whole output block (exactly
    [numOutputFrames] frames of [outputChannelCount] samples each) and
    answers [Continue]. *)
Theorem output_block_is_filled io inp M N st :
  let oc := getChannelCount (getOutputStream io) in
  let result := onBothStreamsReadyFloat io inp M N st in
  length (snd (fst result)) = Z.to_nat N
  /\ Forall (fun frame => length frame = Z.to_nat oc) (snd (fst result))
  /\ length (concat (snd (fst result))) = (Z.to_nat N * Z.to_nat oc)%nat
  /\ snd result = Continue.
Proof.
  intros oc result. unfold result.
  rewrite onBothStreamsReadyFloat_eq. cbn [fst snd]. fold oc.
  assert (length (snd (processOutput oc N st)) = Z.to_nat N
          /\ Forall (fun frame => length frame = Z.to_nat oc)
               (snd (processOutput oc N st))) as [Hlen Hall].
  { unfold processOutput. destruct (noAudioLoaded st); cbn [snd].
    - split; [apply repeat_length|].
      apply Forall_repeat, length_silence.
    - apply playLoop_shape. }
  split; [exact Hlen|]. split; [exact Hall|]. split; [|reflexivity].
  rewrite <- Hlen. clear Hlen.
  induction Hall as [|frame frames Hf _ IH]; [reflexivity|].
  cbn [concat length]. rewrite length_app, Hf, IH. lia.
Qed.

(** ** Requests add up *)

Lemma playLoop_clipView_any oc n : forall st,
  clipView (fst (playLoop oc n st)) = clipView st.
Proof.
  induction n as [|n IH]; intros st; [reflexivity|].
  rewrite playLoop_S. cbv zeta.
  destruct (mPlaybackPosition st >=? mPlaybackNumFrames st);
    [destruct (mLoopPlayback st); [|reflexivity] |]; cbn [fst];
    now rewrite IH.
Qed.

Lemma noAudioLoaded_view (a b : State) :
  clipView a = clipView b -> noAudioLoaded a = noAudioLoaded b.
Proof.
  intros H. destruct (clipView_fields a b H) as (Hb & HF & _ & _).
  unfold noAudioLoaded. now rewrite Hb, HF.
Qed.

Lemma playLoop_ended oc n st :
  mPlaybackNumFrames st <= mPlaybackPosition st ->
  mLoopPlayback st = false ->
  playLoop oc n st = (st, repeat (silence oc) n).
Proof.
  intros Hge Hloop. destruct n as [|n]; [reflexivity|].
  now apply playLoop_S_end.
Qed.

Lemma playLoop_add oc a b : forall st,
  playLoop oc (a + b) st
  = (fst (playLoop oc b (fst (playLoop oc a st))),
     snd (playLoop oc a st) ++ snd (playLoop oc b (fst (playLoop oc a st)))).
Proof.
  induction a as [|a IH]; intros st.
  - cbn [Nat.add playLoop fst snd app]. now destruct (playLoop oc b st).
  - cbn [Nat.add]. rewrite !playLoop_S. cbv zeta.
    destruct (mPlaybackPosition st >=? mPlaybackNumFrames st) eqn:E;
      [destruct (mLoopPlayback st) eqn:El |]; cbn [fst snd].
    + now rewrite IH.
    + rewrite (playLoop_ended oc b st) by (assumption || lia).
      cbn [fst snd]. f_equal.
      change (S (a + b)) with (S a + b)%nat. apply repeat_app.
    + now rewrite IH.
Qed.

Lemma processOutput_add oc (a b : nat) st :
  processOutput oc (Z.of_nat (a + b)) st
  = (fst (processOutput oc (Z.of_nat b)
            (fst (processOutput oc (Z.of_nat a) st))),
     snd (processOutput oc (Z.of_nat a) st)
     ++ snd (processOutput oc (Z.of_nat b)
               (fst (processOutput oc (Z.of_nat a) st)))).
Proof.
  unfold processOutput. rewrite !Nat2Z.id.
  destruct (noAudioLoaded st) eqn:E; cbn [fst snd].
  - rewrite E. cbn [fst snd]. now rewrite repeat_app.
  - rewrite (noAudioLoaded_view _ st (playLoop_clipView_any oc a st)), E.
    apply playLoop_add.
Qed.

Lemma run_as_one io calls : forall st,
  snd (run io calls st)
  = snd (processOutput (getChannelCount (getOutputStream io))
           (Z.of_nat (totalOut calls)) st)
  /\ playbackView (fst (run io calls st))
     = playbackView
         (fst (processOutput (getChannelCount (getOutputStream io))
                 (Z.of_nat (totalOut calls)) st)).
Proof.
  induction calls as [|c rest IH]; intros st.
  - cbn [run totalOut fold_right fst snd]. unfold processOutput.
    destruct (noAudioLoaded st); split; reflexivity.
  - rewrite run_cons, invoke_mix.
    cbn [fst snd totalOut fold_right]. fold (totalOut rest).
    rewrite processOutput_add, <- processOutput_to_nat. cbn [fst snd].
    set (oc := getChannelCount (getOutputStream io)).
    set (p1 := processOutput oc (numOutputFrames c) st).
    destruct (IH (mix (fst p1)
                    (recordLoop (getChannelCount (getInputStream io))
                       (inputData c) (Z.to_nat (numInputFrames c)) st)))
      as [Iout Iview].
    fold oc in Iout, Iview.
    rewrite processOutput_mix in Iout, Iview. cbn [fst snd] in Iout, Iview.
    split; [now rewrite Iout | exact Iview].
Qed.

(** X3.  How a session is cut into requests does not matter to the
    playback: two sequences of invocations that ask for the same total
    number of output frames from the same state produce the same
    sequence of output frames and leave the same cursor, played counter
    and played recording, whatever their input blocks are. *)
Theorem block_size_independence io calls1 calls2 st :
  totalOut calls1 = totalOut calls2 ->
  snd (run io calls1 st) = snd (run io calls2 st)
  /\ playbackView (fst (run io calls1 st))
     = playbackView (fst (run io calls2 st)).
Proof.
  intros HT.
  destruct (run_as_one io calls1 st) as [Hout1 Hview1].
  destruct (run_as_one io calls2 st) as [Hout2 Hview2].
  rewrite Hout1, Hout2, Hview1, Hview2, HT. auto.
Qed.

Lemma block_size_independence_witness :
  snd (run stereo48k [request 0 25] loaded10)
  = snd (run stereo48k [request 3 10; request 1 0; request 2 15] loaded10)
  /\ playbackView (fst (run stereo48k [request 0 25] loaded10))
     = playbackView
         (fst (run stereo48k [request 3 10; request 1 0; request 2 15]
                 loaded10)).
Proof.
  apply (block_size_independence stereo48k [request 0 25]
           [request 3 10; request 1 0; request 2 15] loaded10).
  reflexivity.
Defined.

(** X4.  With looping off the clip is played once: over any session
    from a cursor inside the clip, the output is the frames of the clip
    from the cursor to its end, in order, followed by silence only, and
    the cursor moves forward by the number of clip frames played, never
    past the frame count. *)
Theorem clip_plays_once_without_loop io calls st :
  clip_ok st -> mLoopPlayback st = false ->
  let oc := getChannelCount (getOutputStream io) in
  let T := totalOut calls in
  let k := Nat.min T (Z.to_nat (mPlaybackNumFrames st
                                 - mPlaybackPosition st)) in
  snd (run io calls st)
  = map (fun i => clipFrame st oc (mPlaybackPosition st + Z.of_nat i))
        (seq 0 k)
    ++ repeat (silence oc) (T - k)
  /\ mPlaybackPosition (fst (run io calls st))
     = mPlaybackPosition st + Z.of_nat k
  /\ mPlaybackPosition (fst (run io calls st)) <= mPlaybackNumFrames st.
Proof.
  intros Hok Hloop oc T k.
  destruct (run_as_one io calls st) as [Hout Hview].
  destruct (playbackView_fields _ _ Hview) as (_ & Hpos & _ & _).
  destruct (processOutput_post oc (Z.of_nat T) st Hok)
    as [Pout Ppos _ _ _ _].
  fold oc T in Hout, Hpos. rewrite Nat2Z.id in Pout.
  pose proof (clip_pos st Hok) as Hp.
  assert (clipFramesPlayed st (Z.of_nat T) = k) as Hk.
  { unfold clipFramesPlayed, framesFromClip. rewrite Nat2Z.id, Hloop.
    destruct (noAudioLoaded st) eqn:E; [|reflexivity].
    apply (noAudioLoaded_iff st Hok) in E. unfold k. lia. }
  rewrite Hk in Pout, Ppos.
  assert (cursorAfter st k = mPlaybackPosition st + Z.of_nat k) as Hcur.
  { destruct k as [|k'] eqn:Ek; cbn [cursorAfter]; [lia|].
    rewrite Z.mod_small; lia. }
  split; [|split].
  - rewrite Hout, Pout. f_equal. unfold clipFrames.
    apply map_ext_in. intros i Hi. apply in_seq in Hi.
    f_equal. apply Z.mod_small. lia.
  - now rewrite Hpos, Ppos.
  - rewrite Hpos, Ppos, Hcur. lia.
Qed.

Lemma clip_plays_once_without_loop_witness :
  let st := setLoopPlayback false loaded10 in
  snd (run stereo48k [request 0 4; request 0 8] st)
  = map (fun i => clipFrame st 2 (0 + Z.of_nat i)) (seq 0 10)
    ++ repeat (silence 2) 2
  /\ mPlaybackPosition (fst (run stereo48k [request 0 4; request 0 8] st))
     = 10.
Proof.
  destruct (clip_plays_once_without_loop stereo48k
              [request 0 4; request 0 8] (setLoopPlayback false loaded10))
    as (Hout & Hpos & _).
  - concrete_clip_ok.
  - reflexivity.
  - split; [exact Hout | exact Hpos].
Defined.

(** X5.  In a session with a clip loaded and looping on, the played
    recording receives every output frame of the session, in order:
    what is recorded is the whole output, and while the recording has
    room its history grows by exactly the output. *)
Theorem looped_session_is_recorded io calls st :
  clip_ok st -> 0 < mPlaybackNumFrames st -> mLoopPlayback st = true ->
  let st' := fst (run io calls st) in
  let out := snd (run io calls st) in
  getPlayedRecording st'
  = option_map (fun r => fold_left MultiChannelRecording.write out r)
      (getPlayedRecording st)
  /\ (forall r, getPlayedRecording st = Some r ->
        Z.of_nat (length (MultiChannelRecording.mFrames r))
        + Z.of_nat (length out) <= MultiChannelRecording.mMaxFrames r ->
        exists r', getPlayedRecording st' = Some r'
          /\ MultiChannelRecording.mFrames r'
             = MultiChannelRecording.mFrames r ++ out).
Proof.
  intros Hok HF Hloop st' out. unfold getPlayedRecording.
  destruct (run_as_one io calls st) as [Hout Hview].
  destruct (playbackView_fields _ _ Hview) as (_ & _ & _ & Hrec).
  destruct (processOutput_post (getChannelCount (getOutputStream io))
              (Z.of_nat (totalOut calls)) st Hok)
    as [Pout _ _ Prec _ _].
  rewrite (clipFramesPlayed_loop st _ Hok HF Hloop), Nat2Z.id in Pout, Prec.
  rewrite Nat.sub_diag in Pout. cbn [repeat] in Pout.
  rewrite app_nil_r in Pout.
  fold st' in Hrec. fold out in Hout.
  assert (mPlayedRecording st'
          = option_map (fun r => fold_left MultiChannelRecording.write out r)
              (mPlayedRecording st)) as Hall
    by (now rewrite Hrec, Prec, Hout, Pout).
  split; [exact Hall|].
  intros r Hr Hroom. rewrite Hall, Hr. cbn [option_map].
  eexists. split; [reflexivity|]. now apply fold_left_write_room.
Qed.

Lemma looped_session_is_recorded_witness :
  let st' := fst (run stereo48k [request 0 4; request 2 8] loaded10) in
  let out := snd (run stereo48k [request 0 4; request 2 8] loaded10) in
  option_map MultiChannelRecording.mFrames (getPlayedRecording st')
  = Some out.
Proof.
  destruct (looped_session_is_recorded stereo48k [request 0 4; request 2 8]
              loaded10) as (_ & Hroom).
  - concrete_clip_ok.
  - reflexivity.
  - reflexivity.
  - destruct (Hroom (MultiChannelRecording.create 2 14400000) eq_refl)
      as (r' & Hr' & Hframes).
    + vm_compute. discriminate.
    + cbv zeta. rewrite Hr'. cbn [option_map]. now rewrite Hframes.
Defined.

(** ** Control calls between invocations *)

(** X6.  [start()] rewinds the playback and zeroes both counters but
    keeps the loaded clip and the loop flag: whatever the cursor was,
    the output after [start()] begins with the frames of the clip from
    frame 0 on. *)
Theorem start_rewinds_playback io c st (i : nat) :
  clip_ok st -> 0 < mPlaybackNumFrames st ->
  (i < Nat.min (Z.to_nat (numOutputFrames c))
               (Z.to_nat (mPlaybackNumFrames st)))%nat ->
  let oc := getChannelCount (getOutputStream io) in
  let st1 := start io st in
  getPlayedFrameCount st1 = 0
  /\ getRecordedFrameCount st1 = 0
  /\ mPlaybackPosition st1 = 0
  /\ clipView st1 = clipView st
  /\ nth i (snd (invoke io c st1)) [] = clipFrame st oc (Z.of_nat i).
Proof.
  intros Hok HF Hi oc st1.
  repeat split.
  pose proof (clip_ok_start io st Hok) as Hok1. fold st1 in Hok1.
  destruct (invoke_spec io c st1 Hok1) as [Hout _ _ _ _ _ _].
  fold oc in Hout. rewrite Hout, nth_clipFrames.
  - rewrite (clipFrame_view st1 st oc _ eq_refl).
    change (mPlaybackPosition st1) with 0.
    change (mPlaybackNumFrames st1) with (mPlaybackNumFrames st).
    f_equal. rewrite Z.add_0_l. apply Z.mod_small. lia.
  - unfold clipFramesPlayed, framesFromClip.
    rewrite (noAudioLoaded_false st1 Hok1 HF).
    change (mPlaybackPosition st1) with 0.
    change (mPlaybackNumFrames st1) with (mPlaybackNumFrames st).
    destruct (mLoopPlayback st1); lia.
Qed.

Lemma start_rewinds_playback_witness :
  mPlaybackPosition ended10 = 10
  /\ nth 3 (snd (invoke stereo48k (request 0 5)
                   (start stereo48k ended10))) []
     = clipFrame ended10 2 3.
Proof.
  split; [reflexivity|].
  destruct (start_rewinds_playback stereo48k (request 0 5) ended10 3)
    as (_ & _ & _ & _ & Hnth).
  - concrete_clip_ok.
  - reflexivity.
  - vm_compute. lia.
  - exact Hnth.
Defined.

(** X7.  [setLoopPlayback] changes the flag and nothing else, and the
    flag is read at the next end-of-clip test: when playback has ended
    with looping off and looping is then switched on, the next
    invocation restarts at frame 0 of the clip and goes on cycling. *)
Theorem loop_switch_restarts_ended_clip io c st :
  clip_ok st -> 0 < mPlaybackNumFrames st ->
  mPlaybackPosition st = mPlaybackNumFrames st ->
  let oc := getChannelCount (getOutputStream io) in
  let st1 := setLoopPlayback true st in
  clipView st1
  = (mPlaybackBuffer st, mPlaybackNumFrames st, mPlaybackChannelCount st,
     mPlaybackSampleRate st, true)
  /\ mPlaybackPosition st1 = mPlaybackPosition st
  /\ mPlayedFrameCount st1 = mPlayedFrameCount st
  /\ mPlayedRecording st1 = mPlayedRecording st
  /\ captureView st1 = captureView st
  /\ snd (invoke io c st1)
     = map (fun i => clipFrame st oc (Z.of_nat i mod mPlaybackNumFrames st))
           (seq 0 (Z.to_nat (numOutputFrames c))).
Proof.
  intros Hok HF Hend oc st1.
  repeat split.
  pose proof (clip_ok_setLoopPlayback true st Hok) as Hok1. fold st1 in Hok1.
  destruct (invoke_spec io c st1 Hok1) as [Hout _ _ _ _ _ _].
  rewrite (clipFramesPlayed_loop st1 _ Hok1 HF eq_refl) in Hout.
  rewrite Nat.sub_diag in Hout. cbn [repeat] in Hout.
  rewrite app_nil_r in Hout. fold oc in Hout. rewrite Hout.
  unfold clipFrames. apply map_ext. intros i.
  change (mPlaybackPosition st1) with (mPlaybackPosition st).
  change (mPlaybackNumFrames st1) with (mPlaybackNumFrames st).
  change (clipFrame st1 oc) with (clipFrame st oc).
  rewrite Hend. f_equal.
  rewrite Z.add_comm. rewrite <- (Z.mul_1_l (mPlaybackNumFrames st)) at 1.
  apply Z_mod_plus_full.
Qed.

Lemma loop_switch_restarts_ended_clip_witness :
  snd (invoke stereo48k (request 0 3) ended10) = repeat (silence 2) 3
  /\ snd (invoke stereo48k (request 0 3) (setLoopPlayback true ended10))
     = map (fun i => clipFrame ended10 2 (Z.of_nat i mod 10)) (seq 0 3).
Proof.
  split; [vm_compute; reflexivity|].
  destruct (loop_switch_restarts_ended_clip stereo48k (request 0 3) ended10)
    as (_ & _ & _ & _ & _ & Hout).
  - concrete_clip_ok.
  - reflexivity.
  - reflexivity.
  - exact Hout.
Defined.

Lemma clip_ok_applyOp io op st :
  clip_ok st -> representable op = true -> clip_ok (applyOp io op st).
Proof.
  intros Hok Hrep. destruct op as [ | audioData F C rate | loop | c ];
    cbn [applyOp].
  - now apply clip_ok_start.
  - destruct audioData as [data|]; [|exact Hok].
    cbn [representable] in Hrep.
    destruct ((F <=? 0) || (C <=? 0)) eqn:E.
    + unfold loadAudioData. rewrite E. exact Hok.
    + cbn [orb] in Hrep. apply orb_false_iff in E. destruct E as [E1 E2].
      apply clip_ok_loadAudioData; lia.
  - now apply clip_ok_setLoopPlayback.
  - now destruct (invoke_spec io c st Hok).
Qed.

(** X8.  Over the whole life of an object, from its construction
    through any sequence of [start], [loadAudioData], [setLoopPlayback]
    and callback invocations whose loads are rejected or have a
    representable sample count, the cursor stays inside
    [0, frameCount], the buffer holds exactly
    [frameCount * channelCount] samples, and the channel count is
    positive. *)
Theorem object_keeps_clip_invariant io ops :
  forallb representable ops = true ->
  let st := applyOps io ops construct in
  0 <= mPlaybackPosition st <= mPlaybackNumFrames st
  /\ 0 < mPlaybackChannelCount st
  /\ Z.of_nat (length (mPlaybackBuffer st))
     = mPlaybackNumFrames st * mPlaybackChannelCount st.
Proof.
  intros Hrep st.
  assert (clip_ok st) as [Hp Hc Hl _]; [|auto].
  unfold st, applyOps. generalize clip_ok_construct.
  generalize construct as s.
  induction ops as [|op rest IH]; intros s Hok; [exact Hok|].
  cbn [forallb] in Hrep. apply andb_true_iff in Hrep.
  destruct Hrep as [Hop Hrest]. cbn [fold_left].
  apply IH; [exact Hrest|]. now apply clip_ok_applyOp.
Qed.

Lemma object_keeps_clip_invariant_witness :
  let st := applyOps stereo48k
              [OpCallback (request 2 2); OpStart;
               OpLoadAudioData (Some half_clip) 10 1 48000;
               OpCallback (request 0 25); OpSetLoopPlayback false;
               OpLoadAudioData None 3 3 8000; OpCallback (request 1 40)]
              construct in
  0 <= mPlaybackPosition st <= mPlaybackNumFrames st
  /\ 0 < mPlaybackChannelCount st
  /\ Z.of_nat (length (mPlaybackBuffer st))
     = mPlaybackNumFrames st * mPlaybackChannelCount st.
Proof.
  apply (object_keeps_clip_invariant stereo48k). vm_compute. reflexivity.
Defined.

Lemma nth_repeat_any {A} (x d : A) (n i : nat) :
  (i < n)%nat -> nth i (repeat x n) d = x.
Proof.
  intros Hi. rewrite (nth_indep _ d x) by (now rewrite repeat_length).
  apply nth_repeat.
Qed.

(** X9.  What is loaded is what is played, from any state: after a
    successful [loadAudioData], output frame [i] of the next invocation
    carries in channel [ch] the caller's sample of frame [i mod
    numFrames] at channel [ch mod channelCount], as long as [i] is
    inside the clip or looping is on; with looping off the frames after
    the clip are silence. *)
Theorem loaded_clip_is_played io st data numFrames channelCount sampleRate
    c (i : nat) :
  0 < numFrames -> 0 < channelCount ->
  numFrames * channelCount <= INT32_MAX ->
  (i < Z.to_nat (numOutputFrames c))%nat ->
  let oc := getChannelCount (getOutputStream io) in
  let st1 := snd (loadAudioData (Some data) numFrames channelCount
                    sampleRate st) in
  nth i (snd (invoke io c st1)) []
  = if (Z.of_nat i <? numFrames) || mLoopPlayback st
    then map (fun ch =>
                data (Z.to_nat ((Z.of_nat i mod numFrames) * channelCount
                                + ch mod channelCount)))
             (channels oc)
    else silence oc.
Proof.
  intros HF HC Hfit Hi oc st1.
  pose proof (clip_ok_loadAudioData data _ _ sampleRate st HF HC Hfit)
    as Hok1.
  fold st1 in Hok1.
  assert (mPlaybackNumFrames st1 = numFrames
          /\ mPlaybackPosition st1 = 0
          /\ mLoopPlayback st1 = mLoopPlayback st) as (HF1 & Hpos1 & Hl1)
    by (unfold st1; rewrite (loadAudioData_valid _ _ _ _ _ HF HC Hfit);
        auto).
  destruct (invoke_spec io c st1 Hok1) as [Hout _ _ _ _ _ _].
  fold oc in Hout. rewrite Hout.
  assert (clipFramesPlayed st1 (numOutputFrames c)
          = if mLoopPlayback st then Z.to_nat (numOutputFrames c)
            else Nat.min (Z.to_nat (numOutputFrames c))
                         (Z.to_nat numFrames)) as Hk.
  { unfold clipFramesPlayed, framesFromClip.
    rewrite (noAudioLoaded_false st1 Hok1) by lia.
    now rewrite Hl1, HF1, Hpos1, Z.sub_0_r. }
  rewrite Hk.
  destruct ((Z.of_nat i <? numFrames) || mLoopPlayback st) eqn:E.
  - rewrite nth_clipFrames
      by (apply orb_true_iff in E; destruct (mLoopPlayback st);
          [exact Hi | destruct E as [E|E]; [lia | discriminate]]).
    rewrite Hpos1, HF1, Z.add_0_l. unfold st1.
    apply clipFrame_loaded; try assumption.
    apply Z.mod_pos_bound. exact HF.
  - apply orb_false_iff in E. destruct E as [E1 E2]. rewrite E2.
    rewrite app_nth2 by (rewrite length_clipFrames; lia).
    rewrite length_clipFrames. apply nth_repeat_any. lia.
Qed.

Lemma loaded_clip_is_played_witness :
  nth 11 (snd (invoke stereo48k (request 0 12)
                 (snd (loadAudioData (Some half_clip) 4 2 8000 ended10)))) []
  = silence 2.
Proof.
  apply (loaded_clip_is_played stereo48k ended10 half_clip 4 2 8000
           (request 0 12) 11).
  - lia.
  - lia.
  - vm_compute. discriminate.
  - vm_compute. lia.
Defined.

(** ** What start() allocates *)

Lemma recShape_write (o : option MultiChannelRecording.t) (f : Frame) :
  recShape (option_map (fun r => MultiChannelRecording.write r f) o)
  = recShape o.
Proof.
  destruct o as [r|]; [|reflexivity]. cbn [option_map recShape].
  unfold MultiChannelRecording.write.
  now destruct (_ <? _).
Qed.

Lemma playLoop_playedShape oc n : forall st,
  recShape (mPlayedRecording (fst (playLoop oc n st)))
  = recShape (mPlayedRecording st).
Proof.
  induction n as [|n IH]; intros st; [reflexivity|].
  rewrite playLoop_S. cbv zeta.
  destruct (mPlaybackPosition st >=? mPlaybackNumFrames st);
    [destruct (mLoopPlayback st); [|reflexivity] |]; cbn [fst];
    rewrite IH; apply recShape_write.
Qed.

Lemma processDetectors_length inp count : forall ch detectors,
  length (processDetectors inp ch count detectors) = length detectors.
Proof.
  induction count as [|count IH]; intros ch detectors; [reflexivity|].
  destruct detectors as [|d rest]; [reflexivity|].
  cbn [processDetectors length]. now rewrite IH.
Qed.

Lemma recordLoop_allocShape ic n : forall inp st,
  allocShape (recordLoop ic inp n st) = allocShape st.
Proof.
  induction n as [|n IH]; intros inp st; [reflexivity|].
  cbn [recordLoop]. rewrite IH. unfold allocShape, recordFrame.
  cbn [mPlayedRecording mRecordedRecording mPeakDetectors mNumInputChannels
       set_mRecordedFrameCount set_mPeakDetectors set_mRecordedRecording].
  rewrite recShape_write. do 2 f_equal.
  destruct (mPeakDetectors st) as [detectors|]; [|reflexivity].
  cbn [option_map]. now rewrite processDetectors_length.
Qed.

Lemma invoke_allocShape io c st :
  allocShape (fst (invoke io c st)) = allocShape st.
Proof.
  rewrite invoke_mix. cbn [fst].
  pose proof (recordLoop_allocShape (getChannelCount (getInputStream io))
                (Z.to_nat (numInputFrames c)) (inputData c) st) as Hrec.
  unfold allocShape in *. cbn [mix mPlayedRecording mRecordedRecording
                               mPeakDetectors mNumInputChannels].
  injection Hrec as _ H2 H3 H4. rewrite H2, H3, H4. do 3 f_equal.
  unfold processOutput. destruct (noAudioLoaded st); [reflexivity|].
  apply playLoop_playedShape.
Qed.

Lemma alloc_ok_shape io b (a st : State) :
  allocShape a = allocShape st -> alloc_ok io b st -> alloc_ok io b a.
Proof.
  unfold allocShape, alloc_ok, getPlayedRecording, getRecordedRecording.
  intros H. injection H as Hp Hr Hd Hn. rewrite Hn.
  destruct b.
  - intros ((rp & Ep & Hpc & Hpm) & (rr & Er & Hrc & Hrm)
            & (ds & Ed & Hlen) & Hin).
    rewrite Ep in Hp. rewrite Er in Hr. rewrite Ed in Hd.
    destruct (mPlayedRecording a) as [rp'|]; [|discriminate].
    destruct (mRecordedRecording a) as [rr'|]; [|discriminate].
    destruct (mPeakDetectors a) as [ds'|]; [|discriminate].
    cbn in Hp, Hr, Hd.
    injection Hp as Hp1 Hp2. injection Hr as Hr1 Hr2. injection Hd as Hd.
    split; [exists rp'; repeat split; congruence|].
    split; [exists rr'; repeat split; congruence|].
    split; [exists ds'; split; congruence | exact Hin].
  - intros (Ep & Er & Ed & Hin).
    rewrite Ep in Hp. rewrite Er in Hr. rewrite Ed in Hd.
    destruct (mPlayedRecording a); [discriminate|].
    destruct (mRecordedRecording a); [discriminate|].
    destruct (mPeakDetectors a); [discriminate|]. auto.
Qed.

Lemma loadAudioData_allocShape audioData numFrames channelCount sampleRate
    st :
  allocShape
    (snd (loadAudioData audioData numFrames channelCount sampleRate st))
  = allocShape st.
Proof.
  unfold loadAudioData. destruct audioData as [data|]; [|reflexivity].
  destruct ((numFrames <=? 0) || (channelCount <=? 0)); reflexivity.
Qed.

Lemma reachable_alloc_ok io b st : reachable io b st -> alloc_ok io b st.
Proof.
  induction 1 as [ | b st Hn _ _ | b st a f c r _ IH | b st l _ IH
                   | b st c _ IH ].
  - cbn. auto.
  - unfold alloc_ok, getPlayedRecording, getRecordedRecording.
    cbn [start mPlayedRecording mRecordedRecording mPeakDetectors
         mNumInputChannels].
    split; [eexists; split; [reflexivity | split; reflexivity]|].
    split; [eexists; split; [reflexivity | split; reflexivity]|].
    split; [|reflexivity].
    eexists. split; [reflexivity | apply repeat_length].
  - apply (alloc_ok_shape io b _ st); [|exact IH].
    apply loadAudioData_allocShape.
  - exact IH.
  - apply (alloc_ok_shape io b _ st); [|exact IH].
    apply invoke_allocShape.
Qed.

(** X10.  What [start()] allocates is there exactly from [start()] on,
    whatever is called before or after.  Before [start()] both
    recordings and the detector array are null and no input channel is
    counted, so the callback writes and reads none of them.  After
    [start()] the played and recorded recordings exist with the output
    and input stream's channel count and a capacity of
    [SECONDS_TO_RECORD_HFP] seconds at that stream's sample rate (for
    rates up to 7158278 Hz, where the product is representable), and
    there is one detector per input channel, so that the detector loop
    of the callback stays inside the array. *)
Theorem allocation_lifecycle io isStarted st :
  reachable io isStarted st ->
  let ic := getChannelCount (getInputStream io) in
  alloc_ok io isStarted st
  /\ (isStarted = true ->
      0 <= getSampleRate (getOutputStream io) <= 7158278 ->
      exists r, getPlayedRecording st = Some r
        /\ MultiChannelRecording.mMaxFrames r
           = 300 * getSampleRate (getOutputStream io))
  /\ (Z.to_nat (Z.min ic (mNumInputChannels st))
      <= match mPeakDetectors st with
         | Some detectors => length detectors
         | None => 0
         end)%nat.
Proof.
  intros Hreach ic. pose proof (reachable_alloc_ok io _ st Hreach) as Hok.
  split; [exact Hok|]. split.
  - intros -> Hrate. destruct Hok as ((r & Hr & _ & Hmax) & _).
    exists r. split; [exact Hr|]. rewrite Hmax.
    unfold SECONDS_TO_RECORD_HFP.
    apply wrap32_small. unfold INT32_MAX. lia.
  - unfold alloc_ok in Hok. destruct isStarted.
    + destruct Hok as (_ & _ & (ds & -> & Hlen) & _). lia.
    + destruct Hok as (_ & _ & -> & ->). lia.
Qed.

Lemma allocation_lifecycle_witness :
  alloc_ok stereo48k false
    (fst (invoke stereo48k (request 2 2)
            (snd (loadAudioData (Some half_clip) 10 1 48000 construct))))
  /\ alloc_ok stereo48k true ended10.
Proof.
  split.
  - apply (allocation_lifecycle stereo48k false).
    apply reach_callback, reach_loadAudioData, reach_construct.
  - apply (allocation_lifecycle stereo48k true).
    unfold ended10. apply reach_callback, reach_setLoopPlayback.
    unfold loaded10. apply reach_loadAudioData.
    unfold started. apply (reach_start stereo48k false); [cbn; lia|].
    apply reach_construct.
Defined.

(** ** The capture half *)

Lemma inputFrames_S ic inp m :
  inputFrames ic inp (S m)
  = map inp (seq 0 (Z.to_nat ic))
    :: inputFrames ic (advancePtr inp (Z.to_nat ic)) m.
Proof.
  unfold inputFrames. cbn [seq map]. f_equal.
  rewrite <- seq_shift, map_map. apply map_ext. intros i.
  unfold inputFrame, advancePtr. apply map_ext. intros ch.
  f_equal. lia.
Qed.

Lemma recordLoop_recording ic n : forall inp st,
  mRecordedRecording (recordLoop ic inp n st)
  = option_map
      (fun r => fold_left MultiChannelRecording.write
                  (inputFrames ic inp n) r)
      (mRecordedRecording st).
Proof.
  induction n as [|n IH]; intros inp st.
  - cbn. now rewrite option_map_id.
  - cbn [recordLoop]. rewrite IH, inputFrames_S.
    unfold recordFrame.
    cbn [mRecordedRecording set_mRecordedFrameCount set_mPeakDetectors
         set_mRecordedRecording].
    now rewrite option_map_comp.
Qed.

(** X11.  Every input frame of an invocation is appended to the
    recorded recording, in order, one [write] per frame, whether or not
    a clip is loaded; while the recording has room its history grows by
    exactly the [numInputFrames] frames of the input block.  Before
    [start()] there is no recording and none is made. *)
Theorem input_frames_are_recorded io c st :
  let ic := getChannelCount (getInputStream io) in
  let frames := inputFrames ic (inputData c)
                  (Z.to_nat (numInputFrames c)) in
  let st' := fst (invoke io c st) in
  getRecordedRecording st'
  = option_map (fun r => fold_left MultiChannelRecording.write frames r)
      (getRecordedRecording st)
  /\ length frames = Z.to_nat (numInputFrames c)
  /\ (forall r, getRecordedRecording st = Some r ->
        Z.of_nat (length (MultiChannelRecording.mFrames r))
        + Z.of_nat (length frames) <= MultiChannelRecording.mMaxFrames r ->
        exists r', getRecordedRecording st' = Some r'
          /\ MultiChannelRecording.mFrames r'
             = MultiChannelRecording.mFrames r ++ frames).
Proof.
  intros ic frames st'. unfold getRecordedRecording.
  assert (mRecordedRecording st'
          = option_map
              (fun r => fold_left MultiChannelRecording.write frames r)
              (mRecordedRecording st)) as Hall.
  { unfold st'. rewrite invoke_mix. cbn [fst mix mRecordedRecording].
    apply recordLoop_recording. }
  split; [exact Hall|]. split.
  - unfold frames, inputFrames. now rewrite length_map, length_seq.
  - intros r Hr Hroom. rewrite Hall, Hr. cbn [option_map].
    eexists. split; [reflexivity|]. now apply fold_left_write_room.
Qed.

Lemma input_frames_are_recorded_witness :
  let ramp : FloatPtr := fun i => (Z.of_nat i # 8)%Q in
  let c := {| inputData := ramp; numInputFrames := 2;
              numOutputFrames := 0 |} in
  option_map MultiChannelRecording.mFrames
    (getRecordedRecording (fst (invoke stereo48k c started)))
  = Some [[(0 # 8)%Q; (1 # 8)%Q]; [(2 # 8)%Q; (3 # 8)%Q]].
Proof.
  cbv zeta.
  destruct (input_frames_are_recorded stereo48k
              {| inputData := fun i => (Z.of_nat i # 8)%Q;
                 numInputFrames := 2; numOutputFrames := 0 |} started)
    as (_ & _ & Hroom).
  destruct (Hroom (MultiChannelRecording.create 2 14400000) eq_refl)
    as (r' & Hr' & Hframes).
  - vm_compute. discriminate.
  - rewrite Hr'. cbn [option_map]. rewrite Hframes. reflexivity.
Defined.

Lemma processDetectors_nth inp count : forall ch0 detectors j d,
  nth_error detectors j = Some d ->
  nth_error (processDetectors inp ch0 count detectors) j
  = Some (if (j <? count)%nat
          then PeakDetector.process d (inp (ch0 + j)%nat) else d).
Proof.
  induction count as [|count IH]; intros ch0 detectors j d Hj.
  - exact Hj.
  - destruct detectors as [|d0 rest]; [destruct j; discriminate|].
    cbn [processDetectors]. destruct j as [|j]; cbn [nth_error] in *.
    + injection Hj as ->. now rewrite Nat.add_0_r.
    + rewrite (IH (S ch0) rest j d Hj).
      change (S j <? S count)%nat with (j <? count)%nat.
      now rewrite Nat.add_succ_r.
Qed.

Lemma channelSamples_S ic inp ch m :
  channelSamples ic inp ch (S m)
  = inp ch :: channelSamples ic (advancePtr inp (Z.to_nat ic)) ch m.
Proof.
  unfold channelSamples. cbn [seq map]. f_equal.
  rewrite <- seq_shift, map_map. apply map_ext. intros i.
  unfold advancePtr. f_equal. lia.
Qed.

Lemma recordLoop_detectors ic n : forall inp st detectors,
  mPeakDetectors st = Some detectors ->
  exists detectors',
    mPeakDetectors (recordLoop ic inp n st) = Some detectors'
    /\ length detectors' = length detectors
    /\ forall ch d, nth_error detectors ch = Some d ->
         nth_error detectors' ch
         = Some (if (ch <? Z.to_nat (Z.min ic (mNumInputChannels st)))%nat
                 then fold_left PeakDetector.process
                        (channelSamples ic inp ch n) d
                 else d).
Proof.
  induction n as [|n IH]; intros inp st detectors Hd.
  - exists detectors. split; [exact Hd|]. split; [reflexivity|].
    intros ch d Hch. rewrite Hch. unfold channelSamples.
    cbn [seq map fold_left].
    now destruct (ch <? Z.to_nat (Z.min ic (mNumInputChannels st)))%nat.
  - cbn [recordLoop].
    set (count := Z.to_nat (Z.min ic (mNumInputChannels st))).
    assert (mPeakDetectors (recordFrame ic inp st)
            = Some (processDetectors inp 0 count detectors)) as Hd1
      by (unfold recordFrame;
          cbn [mPeakDetectors mNumInputChannels set_mRecordedFrameCount
               set_mPeakDetectors set_mRecordedRecording];
          now rewrite Hd).
    destruct (IH (advancePtr inp (Z.to_nat ic)) _ _ Hd1)
      as (detectors' & Hd' & Hlen & Hnth).
    change (mNumInputChannels (recordFrame ic inp st))
      with (mNumInputChannels st) in Hnth. fold count in Hnth.
    exists detectors'. split; [exact Hd'|].
    split; [now rewrite Hlen, processDetectors_length|].
    intros ch d Hch.
    rewrite (Hnth ch _ (processDetectors_nth inp count 0 detectors ch d Hch)).
    rewrite channelSamples_S. cbn [fold_left Nat.add].
    now destruct (ch <? count)%nat.
Qed.

(** X12.  Each peak detector is fed the samples of its own channel only:
    after an invocation, the detector of channel [ch], for [ch] below
    both the stream's input channel count and the number of detectors
    allocated by [start()], has processed exactly the samples at
    offsets [ch], [ch + ic], [ch + 2 ic], ... of the interleaved input
    block, one per input frame and in order; the other detectors are
    untouched, and the detector array keeps its length. *)
Theorem detectors_are_fed_per_channel io c st detectors :
  mPeakDetectors st = Some detectors ->
  let ic := getChannelCount (getInputStream io) in
  let M := Z.to_nat (numInputFrames c) in
  exists detectors',
    mPeakDetectors (fst (invoke io c st)) = Some detectors'
    /\ length detectors' = length detectors
    /\ forall ch d, nth_error detectors ch = Some d ->
         nth_error detectors' ch
         = Some (if (ch <? Z.to_nat (Z.min ic (mNumInputChannels st)))%nat
                 then fold_left PeakDetector.process
                        (channelSamples ic (inputData c) ch M) d
                 else d).
Proof.
  intros Hd ic M. rewrite invoke_mix. cbn [fst mix mPeakDetectors].
  now apply recordLoop_detectors.
Qed.

Lemma detectors_are_fed_per_channel_witness :
  let ramp : FloatPtr := fun i => (Z.of_nat i # 8)%Q in
  let c := {| inputData := ramp; numInputFrames := 2;
              numOutputFrames := 0 |} in
  exists detectors',
    mPeakDetectors (fst (invoke stereo48k c started)) = Some detectors'
    /\ nth_error detectors' 1
       = Some (PeakDetector.process
                 (PeakDetector.process PeakDetector.init (1 # 8)%Q)
                 (3 # 8)%Q).
Proof.
  cbv zeta.
  destruct (detectors_are_fed_per_channel stereo48k
              {| inputData := fun i => (Z.of_nat i # 8)%Q;
                 numInputFrames := 2; numOutputFrames := 0 |} started
              [PeakDetector.init; PeakDetector.init] eq_refl)
    as (detectors' & Hd' & _ & Hnth).
  exists detectors'. split; [exact Hd'|].
  exact (Hnth 1%nat PeakDetector.init eq_refl).
Defined.

(** X13.  The audio callback never modifies the loaded clip: after any
    session, from any state, the sample buffer, the frame count, the
    channel count, the sample rate and the loop flag are what they
    were. *)
Theorem callback_never_touches_clip io calls st :
  let st' := fst (run io calls st) in
  mPlaybackBuffer st' = mPlaybackBuffer st
  /\ mPlaybackNumFrames st' = mPlaybackNumFrames st
  /\ mPlaybackChannelCount st' = mPlaybackChannelCount st
  /\ mPlaybackSampleRate st' = mPlaybackSampleRate st
  /\ mLoopPlayback st' = mLoopPlayback st.
Proof.
  intros st'.
  destruct (run_as_one io calls st) as [_ Hview].
  destruct (playbackView_fields _ _ Hview) as (Hclip & _).
  fold st' in Hclip.
  assert (clipView st' = clipView st) as H.
  { rewrite Hclip. unfold processOutput.
    destruct (noAudioLoaded st); [reflexivity|].
    apply playLoop_clipView_any. }
  unfold clipView in H. injection H as H1 H2 H3 H4 H5. auto.
Qed.
